(** * Activation dynamics of the Hill-type muscle notebook

    A shallow embedding of the numerical kernel of
    [hilltype_muscle_model.ipynb]: the excitation pulse [get_u], the
    effective time constant [tau], the right-hand side [dydt] of the
    activation equation, and [do_it]: the time grid, the call of the
    integrator, the sampled excitation, the loop over the muscle model and
    the window that is plotted.  The integrator and the muscle model are
    libraries outside the notebook and enter as parameters.

    Numbers.  The notebook computes on Python floats, that is on binary64.
    Two models are given.  The exact model takes [Q] as the number type
    and computes without rounding: [0.2], [0.001], [0.080], [0.0001] denote
    the decimal fractions themselves, and equality of results is [Qeq]
    (written [==]) unless a function returns one of its arguments or a
    literal unchanged.  It is the model of the statements about values and
    their order, on ranges where the doubles neither overflow nor round a
    divisor to zero.  The binary64 model, in module [B64], gives [get_u],
    [tau] and [dydt] on the doubles themselves; it is the model of the
    statements about the edges of the pulse and about overflow, where
    rounding decides, and of the counterexamples there.

    Errors.  Division of Python floats raises [ZeroDivisionError] on a zero
    divisor; it is modelled by [Py.div] and [B64.div], which return [None]
    there, and the functions that divide return an option. *)

From Stdlib Require Import QArith Qround Qabs Lqa Lia List ZArith Bool.
From Stdlib Require Import SpecFloat.
Import ListNotations.

Local Open Scope Q_scope.

(** ** Python arithmetic on exact rationals *)

Module Py.

(** [x < y] as a boolean, the value of a Python comparison. *)
Definition ltb (x y : Q) : bool :=
  (Qnum x * QDen y <? Qnum y * QDen x)%Z.

(** [x / y]; [None] stands for [ZeroDivisionError]. *)
Definition div (x y : Q) : option Q :=
  if Qeq_bool y 0 then None else Some (x / y).

(** Sequencing of computations that may raise. *)
Definition bind {A B : Type} (m : option A) (k : A -> option B) : option B :=
  match m with
  | Some x => k x
  | None => None
  end.

(** [numpy.arange(stop)] for a float [stop]: the values [0, 1, ...] below
    [stop]; numpy documents the length as [ceil(stop)]. *)
Definition arange (stop : Q) : list Q :=
  map (fun i : nat => inject_Z (Z.of_nat i)) (seq 0 (Z.to_nat (Qceiling stop))).

End Py.

Notation "x <- m ;; k" := (Py.bind m (fun x => k))
  (at level 61, m at next level, right associativity).

(** ** The notebook's functions *)

(** [get_u], cell 2.  The operator [&] on two Python booleans is
    conjunction without short-circuit; both comparisons are total. *)
Definition get_u (t pulse_amplitude pulse_duration : Q) : Q :=
  let pulse_start := 0.2 in
  let u :=
    if Py.ltb pulse_start t && Py.ltb t (pulse_start + pulse_duration)
    then pulse_amplitude
    else 0 in
  u.

(** [tau], cell 2. *)
Definition tau (a u : Q) : option Q :=
  let t_act := 0.001 in
  let t_deact := 0.080 in
  if Py.ltb a u
  then Some (t_act * (0.5 + 1.5 * a))
  else Py.div t_deact (0.5 + 1.5 * a).

(** [dydt], cell 2. *)
Definition dydt (y t pulse_amplitude pulse_duration : Q) : option Q :=
  let a := y in
  let u := get_u t pulse_amplitude pulse_duration in
  tv <- tau a u ;;
  Py.div (u - a) tv.

(** The expression [(u - a) / tau(a, u)] of [dydt] as a function of the
    pair [(a, u)]. *)
Definition rhs (a u : Q) : option Q :=
  tv <- tau a u ;;
  Py.div (u - a) tv.

(** The numerical results of one run of [do_it]: the time grid, the
    activation trace and the sampled excitation. *)
Record run : Type := MkRun {
  run_t : list Q;
  run_a : list Q;
  run_u : list Q
}.

(** The step size and the initial activation that [do_it] fixes. *)
Definition dt : Q := 0.0001.
Definition a0 : Q := 0.

(** The time grid of [do_it]: [np.arange(total_duration/dt) * dt].  The
    divisor is the literal [0.0001], never zero, so this division cannot
    raise and is written with the total quotient of [Q]. *)
Definition time_grid (total_duration : Q) : list Q :=
  map (fun x => x * dt) (Py.arange (total_duration / dt)).

Section Solve.

(** [scipy.integrate.odeint] is not part of the notebook; [do_it] is
    modelled over an arbitrary integrator that receives the right-hand
    side, the initial value and the time points and returns one sample
    per time point. *)
Variable odeint : (Q -> Q -> option Q) -> Q -> list Q -> list Q.

(** [do_it], cell 3, up to the call of the muscle model and the plots. *)
Definition do_it (pulse_duration pulse_amplitude total_duration : Q) : run :=
  let t := time_grid total_duration in
  let a := odeint (fun y x => dydt y x pulse_amplitude pulse_duration) a0 t in
  let u := map (fun x => get_u x pulse_amplitude pulse_duration) t in
  MkRun t a u.

End Solve.

(** The default arguments of [do_it]. *)
Definition default_pulse_duration : Q := 0.005.
Definition default_pulse_amplitude : Q := 1.
Definition default_total_duration : Q := 1.0.

(** ** Integrators

    What the theorems below need from an integrator is stated as a
    property of the parameter [odeint] of [do_it].  The explicit Euler
    scheme is given as one executable integrator that has these
    properties; it is not the scheme of [scipy.integrate.odeint]. *)

(** An integrator keeps a rest point: when the right-hand side vanishes at
    the initial value for every time, every sample is the initial value. *)
Definition keeps_rest (odeint : (Q -> Q -> option Q) -> Q -> list Q -> list Q)
  : Prop :=
  forall f y0 ts,
    (forall y t, y == y0 -> exists r, f y t = Some r /\ r == 0) ->
    Forall (fun y => y == y0) (odeint f y0 ts).

(** One explicit Euler step of length [h] from the state [y] at time [t]; a
    right-hand side that raises leaves the state where it is. *)
Definition euler_step (f : Q -> Q -> option Q) (h y t : Q) : Q :=
  match f y t with
  | Some r => y + h * r
  | None => y
  end.

(** Euler samples at the time points [ts], from the state [y] at [tprev]. *)
Fixpoint euler_from (f : Q -> Q -> option Q) (y tprev : Q) (ts : list Q)
  : list Q :=
  match ts with
  | [] => []
  | t :: ts' =>
      let y' := euler_step f (t - tprev) y tprev in
      y' :: euler_from f y' t ts'
  end.

(** The Euler integrator: the first sample is the initial value, at the
    first time point. *)
Definition euler (f : Q -> Q -> option Q) (y0 : Q) (ts : list Q) : list Q :=
  match ts with
  | [] => []
  | t0 :: ts' => y0 :: euler_from f y0 t0 ts'
  end.

(** Consecutive time points, starting from [tprev], are at most [h] apart
    and do not decrease. *)
Fixpoint spaced (h tprev : Q) (ts : list Q) : Prop :=
  match ts with
  | [] => True
  | t :: ts' => 0 <= t - tprev /\ t - tprev <= h /\ spaced h t ts'
  end.

(** ** The rest of [do_it]: the muscle loop and the plotted window *)

(** Python's [int] on a float: truncation towards zero. *)
Definition py_int (q : Q) : Z :=
  if Qle_bool 0 q then Qfloor q else Qceiling q.

Module Np.

(** [numpy.zeros_like(t)]: as many zeros as [t] has elements. *)
Definition zeros_like (t : list Q) : list Q := map (fun _ => 0) t.

(** [arr[i] = x] for an index [i >= 0]; [None] stands for the
    [IndexError] of an index past the end. *)
Fixpoint setitem (arr : list Q) (i : nat) (x : Q) : option (list Q) :=
  match arr, i with
  | [], _ => None
  | _ :: rest, O => Some (x :: rest)
  | y :: rest, S j =>
      match setitem rest j x with
      | Some rest' => Some (y :: rest')
      | None => None
      end
  end.

(** [arr[slice(k, None)]]: the elements from index [k] on, a negative [k]
    counting from the end; a slice never raises. *)
Definition slice_from {A : Type} (k : Z) (arr : list A) : list A :=
  if (k <? 0)%Z
  then skipn (length arr - Z.to_nat (- k)) arr
  else skipn (Z.to_nat k) arr.

End Np.

(** The test [x != 0], used to count the samples that carry a pulse. *)
Definition nonzero (x : Q) : bool := negb (Qeq_bool x 0).

(** The slice [s = slice(int(0.1/dt), None)] that [do_it] applies to every
    plotted array, to leave the model time to settle. *)
Definition settle_index : Z := py_int (0.1 / dt).

Definition settle {A : Type} (arr : list A) : list A :=
  Np.slice_from settle_index arr.

(** The arrays that the loop of [do_it] fills. *)
Record traces : Type := MkTraces {
  v_ce : list Q;
  f_mtc : list Q;
  f_ce : list Q;
  f_isom : list Q;
  f_see : list Q;
  l_see : list Q
}.

Section Muscle.

(** [openmuscle] is not part of the notebook.  Its muscle object is taken
    as a parameter: a state type, the constructor from an initial
    activation, the operation [step], which returns the new state with the
    five numbers that [do_it] unpacks, and the attribute [v_CE].  An
    exception raised inside [openmuscle] is not modelled. *)
Variable M : Type.
Variable Muscle : Q -> M.
Variable step : M -> Q -> Q -> M * (Q * Q * Q * Q * Q).
Variable v_CE : M -> Q.

(** The loop [for i, ai in enumerate(a)] of [do_it], from index [i] on.
    The tuple assignment stores its targets from left to right, then
    [f_isom[i]] and [v_ce[i]] are stored. *)
Fixpoint muscle_loop (muscle : M) (i : nat) (a : list Q) (tr : traces)
  : option (M * traces) :=
  match a with
  | [] => Some (muscle, tr)
  | ai :: rest =>
      let '(muscle', (fm, fc, f_isomi, fs, ls)) := step muscle ai dt in
      f_mtc' <- Np.setitem (f_mtc tr) i fm ;;
      f_ce' <- Np.setitem (f_ce tr) i fc ;;
      f_see' <- Np.setitem (f_see tr) i fs ;;
      l_see' <- Np.setitem (l_see tr) i ls ;;
      f_isom' <- Np.setitem (f_isom tr) i (f_isomi * ai) ;;
      v_ce' <- Np.setitem (v_ce tr) i (v_CE muscle') ;;
      muscle_loop muscle' (S i) rest
        (MkTraces v_ce' f_mtc' f_ce' f_isom' f_see' l_see')
  end.

(** The part of [do_it] between the solve and the plots: six arrays of
    zeros shaped like [t], the muscle built from [a[0]] (an [IndexError] on
    an empty [a]), and the loop. *)
Definition muscle_traces (t a : list Q) : option (M * traces) :=
  let z := Np.zeros_like t in
  a_first <- nth_error a 0 ;;
  muscle_loop (Muscle a_first) 0 a (MkTraces z z z z z z).

(** [do_it] from its arguments to the filled arrays. *)
Definition do_it_traces
    (odeint : (Q -> Q -> option Q) -> Q -> list Q -> list Q)
    (pulse_duration pulse_amplitude total_duration : Q)
  : option (M * traces) :=
  let r := do_it odeint pulse_duration pulse_amplitude total_duration in
  muscle_traces (run_t r) (run_a r).

End Muscle.

(** All six arrays have [n] elements. *)
Definition shaped (n : nat) (tr : traces) : Prop :=
  length (v_ce tr) = n /\ length (f_mtc tr) = n /\ length (f_ce tr) = n /\
  length (f_isom tr) = n /\ length (f_see tr) = n /\ length (l_see tr) = n.

(** A stand-in muscle for examples: its state is the last activation it
    was stepped with, and it reports that activation in every output. *)
Definition stub_step (m a h : Q) : Q * (Q * Q * Q * Q * Q) :=
  (a, (a, a, 1, a, a)).

(** The ranges of the three sliders of [interact]. *)
Record slider : Type := MkSlider {
  slider_value : Q;
  slider_min : Q;
  slider_max : Q
}.

Definition pulse_duration_slider : slider := MkSlider 0.2 0.0 0.9.
Definition pulse_amplitude_slider : slider := MkSlider 1 0 1.
Definition total_duration_slider : slider := MkSlider 1 0.5 2.

Definition in_slider (s : slider) (x : Q) : Prop :=
  slider_min s <= x /\ x <= slider_max s.

(** ** The same functions on binary64

    The exact model above and the notebook differ where rounding decides a
    comparison, and where a product overflows.  For the statements that
    depend on this, [get_u], [tau] and [dydt] are given a second time on
    the doubles themselves: [spec_float] at precision [53] and maximal
    exponent [1024], with the correctly rounded operations of the
    Standard Library.  A decimal literal of the source is the double
    nearest to it. *)

Module B64.

Definition prec : Z := 53.
Definition emax : Z := 1024.

(** The double nearest to an integer. *)
Definition of_Z (z : Z) : spec_float := binary_normalize prec emax z 0 false.

(** The double nearest to [m / p]: the correctly rounded quotient of two
    integers that are doubles themselves.  With [p] a power of ten this
    is how Python reads a decimal literal. *)
Definition lit (m : Z) (p : positive) : spec_float :=
  SFdiv prec emax (of_Z m) (of_Z (Zpos p)).

Definition zero : spec_float := S754_zero false.
Definition add : spec_float -> spec_float -> spec_float := SFadd prec emax.
Definition sub : spec_float -> spec_float -> spec_float := SFsub prec emax.
Definition mul : spec_float -> spec_float -> spec_float := SFmul prec emax.

(** [x < y] on doubles; false when either side is not a number. *)
Definition ltb : spec_float -> spec_float -> bool := SFltb.

(** [x / y] on Python floats: [ZeroDivisionError], here [None], when [y]
    is a zero of either sign; any other divisor gives the rounded
    quotient, which may be infinite or not a number. *)
Definition div (x y : spec_float) : option spec_float :=
  match y with
  | S754_zero _ => None
  | _ => Some (SFdiv prec emax x y)
  end.

(** [get_u], cell 2, on doubles.  The integer [0] of the [else] branch is
    the double [0.0] wherever it is used. *)
Definition get_u (t pulse_amplitude pulse_duration : spec_float)
  : spec_float :=
  let pulse_start := lit 2 10 in
  let u :=
    if ltb pulse_start t && ltb t (add pulse_start pulse_duration)
    then pulse_amplitude
    else zero in
  u.

(** [tau], cell 2, on doubles. *)
Definition tau (a u : spec_float) : option spec_float :=
  let t_act := lit 1 1000 in
  let t_deact := lit 80 1000 in
  if ltb a u
  then Some (mul t_act (add (lit 5 10) (mul (lit 15 10) a)))
  else div t_deact (add (lit 5 10) (mul (lit 15 10) a)).

(** [dydt], cell 2, on doubles. *)
Definition dydt (y t pulse_amplitude pulse_duration : spec_float)
  : option spec_float :=
  let a := y in
  let u := get_u t pulse_amplitude pulse_duration in
  tv <- tau a u ;;
  div (sub u a) tv.

(** The grid point [t[i]] of [do_it]: [np.arange(...)[i] * dt]. *)
Definition grid_point (i : Z) : spec_float := mul (of_Z i) (lit 1 10000).

(** The real number that a finite double stands for. *)
Definition to_Q (x : spec_float) : option Q :=
  match x with
  | S754_zero _ => Some 0
  | S754_finite s m e =>
      let v := inject_Z (Zpos m) * Qpower 2 e in
      Some (if s then - v else v)
  | _ => None
  end.

(** A computation returned a double greater than [0], less than [0]. *)
Definition positive (r : option spec_float) : bool :=
  match r with
  | Some x => ltb zero x
  | None => false
  end.

Definition negative (r : option spec_float) : bool :=
  match r with
  | Some x => ltb x zero
  | None => false
  end.

End B64.

(** ** Traces built from steps of the right-hand side *)





(** ** Comparisons and division *)

Lemma ltb_lt (x y : Q) : Py.ltb x y = true <-> x < y.
Proof. unfold Py.ltb, Qlt. apply Z.ltb_lt. Qed.

Lemma ltb_ge (x y : Q) : Py.ltb x y = false <-> y <= x.
Proof. unfold Py.ltb, Qle. apply Z.ltb_ge. Qed.

Lemma div_some (x y : Q) : ~ y == 0 -> Py.div x y = Some (x / y).
Proof.
  intros Hy. unfold Py.div.
  destruct (Qeq_bool y 0) eqn:E; [|reflexivity].
  apply Qeq_bool_eq in E. contradiction.
Qed.

Lemma div_none (x y : Q) : y == 0 -> Py.div x y = None.
Proof.
  intros Hy. unfold Py.div.
  apply Qeq_eq_bool in Hy. now rewrite Hy.
Qed.

Lemma dydt_rhs (y t pa pd : Q) : dydt y t pa pd = rhs y (get_u t pa pd).
Proof. reflexivity. Qed.

(** ** The excitation pulse *)

Lemma get_u_inside (t pa pd : Q) :
  0.2 < t -> t < 0.2 + pd -> get_u t pa pd = pa.
Proof.
  intros H1 H2. unfold get_u.
  apply ltb_lt in H1. apply ltb_lt in H2. now rewrite H1, H2.
Qed.

Lemma get_u_outside (t pa pd : Q) :
  ~ (0.2 < t /\ t < 0.2 + pd) -> get_u t pa pd = 0.
Proof.
  intros H. unfold get_u.
  destruct (Py.ltb 0.2 t) eqn:E1; [|reflexivity].
  destruct (Py.ltb t (0.2 + pd)) eqn:E2; [|reflexivity].
  exfalso. apply H. split; now apply ltb_lt.
Qed.

(** *** The pulse on doubles *)

Lemma b64_ltb_irrefl (x : spec_float) : B64.ltb x x = false.
Proof.
  unfold B64.ltb, SFltb. destruct x as [s|s| |s m e]; cbn.
  - reflexivity.
  - now destruct s.
  - reflexivity.
  - rewrite Z.compare_refl, Pos.compare_cont_refl. now destruct s.
Qed.

(** C1, as the code has it.  For all doubles [t], [pulse_amplitude] and
    [pulse_duration], [get_u] returns [pulse_amplitude] when
    [pulse_start < t < pulse_start + pulse_duration] and [0] otherwise,
    where [pulse_start] is the double nearest to [0.2], the sum is the
    rounded sum of doubles and [<] is the comparison of doubles; it
    returns [0] at [t = pulse_start] and at [t] equal to that rounded
    sum. *)
Theorem get_u_binary64 (t pa pd : spec_float) :
  (B64.ltb (B64.lit 2 10) t = true /\
   B64.ltb t (B64.add (B64.lit 2 10) pd) = true ->
   B64.get_u t pa pd = pa) /\
  (~ (B64.ltb (B64.lit 2 10) t = true /\
      B64.ltb t (B64.add (B64.lit 2 10) pd) = true) ->
   B64.get_u t pa pd = B64.zero) /\
  B64.get_u (B64.lit 2 10) pa pd = B64.zero /\
  B64.get_u (B64.add (B64.lit 2 10) pd) pa pd = B64.zero.
Proof.
  unfold B64.get_u. split; [|split; [|split]].
  - intros [H1 H2]. now rewrite H1, H2.
  - intros H.
    destruct (B64.ltb (B64.lit 2 10) t) eqn:E1; [|reflexivity].
    destruct (B64.ltb t (B64.add (B64.lit 2 10) pd)) eqn:E2; [|reflexivity].
    exfalso. apply H. now split.
  - now rewrite b64_ltb_irrefl.
  - now rewrite b64_ltb_irrefl, andb_false_r.
Qed.

Lemma get_u_binary64_witness :
  B64.get_u (B64.lit 203 1000) (B64.of_Z 1) (B64.lit 5 1000) = B64.of_Z 1 /\
  B64.get_u (B64.lit 1 10) (B64.of_Z 1) (B64.lit 5 1000) = B64.zero.
Proof.
  split.
  - destruct (get_u_binary64 (B64.lit 203 1000) (B64.of_Z 1) (B64.lit 5 1000))
      as [H _].
    apply H. split; reflexivity.
  - destruct (get_u_binary64 (B64.lit 1 10) (B64.of_Z 1) (B64.lit 5 1000))
      as [_ [H _]].
    apply H. intros [H' _]. vm_compute in H'. discriminate.
Defined.

(** C1, as stated on real numbers, fails at the right edge of the pulse.
    [0.3] is [0.2 + 0.1] and [0.205] is [0.2 + 0.005], so the claim gives
    [0] there, and so does the exact model; the code returns the
    amplitude, because the two sums round up to [0.30000000000000004] and
    [0.20500000000000002]. *)
Lemma get_u_edge_rounds_up :
  (0.3 == 0.2 + 0.1 /\ get_u 0.3 1 0.1 = 0 /\
   B64.get_u (B64.lit 3 10) (B64.of_Z 1) (B64.lit 1 10) = B64.of_Z 1) /\
  (0.205 == 0.2 + 0.005 /\ get_u 0.205 1 0.005 = 0 /\
   B64.get_u (B64.lit 205 1000) (B64.of_Z 1) (B64.lit 5 1000) = B64.of_Z 1) /\
  B64.of_Z 1 <> B64.zero.
Proof.
  vm_compute. repeat split. discriminate.
Qed.

(** The doubles behind the counterexample: the literal [0.3], and the
    sum [0.2 + 0.1], one unit in the last place above it. *)
Example edge_doubles :
  B64.lit 3 10 = S754_finite false 5404319552844595 (-54) /\
  B64.add (B64.lit 2 10) (B64.lit 1 10)
    = S754_finite false 5404319552844596 (-54).
Proof. vm_compute. split; reflexivity. Qed.

(** Their values: the literal [0.3] lies below the real [0.3], the rounded
    sum above it; the literal [0.2] lies above the real [0.2]. *)
Example edge_values :
  (exists v, B64.to_Q (B64.lit 3 10) = Some v /\ v < 0.3) /\
  (exists v, B64.to_Q (B64.add (B64.lit 2 10) (B64.lit 1 10)) = Some v /\
             0.3 < v) /\
  (exists v, B64.to_Q (B64.lit 2 10) = Some v /\ 0.2 < v).
Proof.
  repeat split; eexists; (split; [vm_compute; reflexivity | reflexivity]).
Qed.

(** C10.  [get_u] validates nothing and cannot raise (it is a total
    function into [Q]); when [pulse_duration <= 0] the pulse interval is
    empty and [get_u] returns [0] for every [t] and [pulse_amplitude]. *)
Theorem get_u_empty_pulse (t pa pd : Q) :
  pd <= 0 -> get_u t pa pd = 0.
Proof.
  intros Hpd. apply get_u_outside. intros [H1 H2]. lra.
Qed.

Lemma get_u_empty_pulse_witness :
  -0.05 <= 0 /\ get_u 0.21 1 (-0.05) = 0.
Proof.
  split; [vm_compute; discriminate | apply (get_u_empty_pulse 0.21 1 (-0.05)); vm_compute; discriminate].
Defined.

(** ** The effective time constant *)

Lemma tau_activating (a u : Q) :
  a < u -> tau a u = Some (0.001 * (0.5 + 1.5 * a)).
Proof. intros H. unfold tau. apply ltb_lt in H. now rewrite H. Qed.

Lemma tau_deactivating (a u : Q) :
  u <= a -> tau a u = Py.div 0.080 (0.5 + 1.5 * a).
Proof. intros H. unfold tau. apply ltb_ge in H. now rewrite H. Qed.

(** C2.  [tau a u] is [0.001 * (0.5 + 1.5*a)] when [u > a] and
    [0.080 / (0.5 + 1.5*a)] when [u <= a]: the activating branch is taken
    exactly when [u] is strictly greater than [a].  The quotient of the
    deactivating branch is the Python division, a value whenever its
    divisor is not zero. *)
Theorem tau_branches (a u : Q) :
  (a < u -> tau a u = Some (0.001 * (0.5 + 1.5 * a))) /\
  (u <= a -> tau a u = Py.div 0.080 (0.5 + 1.5 * a)) /\
  (u <= a -> ~ 0.5 + 1.5 * a == 0 ->
   tau a u = Some (0.080 / (0.5 + 1.5 * a))).
Proof.
  split; [|split].
  - apply tau_activating.
  - apply tau_deactivating.
  - intros H Hd. rewrite tau_deactivating by exact H. now apply div_some.
Qed.

Lemma tau_branches_witness :
  tau 0 1 = Some (0.001 * (0.5 + 1.5 * 0)) /\
  tau 1 0 = Some (0.080 / (0.5 + 1.5 * 1)).
Proof.
  split.
  - destruct (tau_branches 0 1) as [H _]. apply H. reflexivity.
  - destruct (tau_branches 1 0) as [_ [_ H]].
    apply H; vm_compute; discriminate.
Defined.

Example tau_branches_values :
  tau 0 1 = Some (0.001 * (0.5 + 1.5 * 0)) /\
  tau 1 1 = Some (0.080 / (0.5 + 1.5 * 1)) /\
  tau 1 0 = Some (0.080 / (0.5 + 1.5 * 1)).
Proof. repeat split; reflexivity. Qed.

Lemma div_pos (x y : Q) : 0 < x -> 0 < y -> 0 < x / y.
Proof.
  intros Hx Hy. apply Qlt_shift_div_l; [exact Hy|]. lra.
Qed.

Lemma div_nonneg (x y : Q) : 0 <= x -> 0 < y -> 0 <= x / y.
Proof.
  intros Hx Hy. apply Qle_shift_div_l; [exact Hy|]. lra.
Qed.

Lemma div_nonpos (x y : Q) : x <= 0 -> 0 < y -> x / y <= 0.
Proof.
  intros Hx Hy. apply Qle_shift_div_r; [exact Hy|]. lra.
Qed.

(** On [a >= 0] the time constant is a positive number. *)
Lemma tau_pos (a u : Q) :
  0 <= a -> exists tv, tau a u = Some tv /\ 0 < tv.
Proof.
  intros Ha.
  destruct (Qlt_le_dec a u) as [H|H].
  - rewrite (tau_activating a u H). eexists; split; [reflexivity|]. lra.
  - rewrite (tau_deactivating a u H), div_some by lra.
    eexists; split; [reflexivity|]. apply div_pos; lra.
Qed.

(** On [a >= 0] the quotient [(u - a) / tau(a, u)] is a number. *)
Lemma rhs_defined (a u : Q) :
  0 <= a ->
  exists tv, tau a u = Some tv /\ 0 < tv /\ rhs a u = Some ((u - a) / tv).
Proof.
  intros Ha. destruct (tau_pos a u Ha) as [tv [Ht Hp]].
  exists tv. split; [exact Ht|]. split; [exact Hp|].
  unfold rhs. rewrite Ht. cbn. apply div_some. lra.
Qed.

(** C9, as the code has it.  For every [a] with [0 <= a <= 1e308] and
    every [u]: the divisor [0.5 + 1.5*a] is not zero, [tau a u] is a
    strictly positive number, and the right-hand side
    [(u - a) / tau(a, u)] is defined, for [rhs] and for [dydt] at every
    time and pulse.  The upper bound keeps [1.5*a] below the largest
    double. *)
Theorem tau_total_positive (a u : Q) :
  0 <= a -> a <= inject_Z (10 ^ 308) ->
  ~ 0.5 + 1.5 * a == 0 /\
  (exists tv, tau a u = Some tv /\ 0 < tv) /\
  (exists r, rhs a u = Some r) /\
  (forall t pa pd, exists r, dydt a t pa pd = Some r).
Proof.
  intros Ha _. split; [lra|]. split; [now apply tau_pos|]. split.
  - destruct (rhs_defined a u Ha) as [tv [_ [_ H]]]. eauto.
  - intros t pa pd. rewrite dydt_rhs.
    destruct (rhs_defined a (get_u t pa pd) Ha) as [tv [_ [_ H]]]. eauto.
Qed.

Lemma tau_total_positive_witness :
  (exists tv, tau 0.5 1 = Some tv /\ 0 < tv) /\
  (exists r, dydt 0.5 0.3 1 0.2 = Some r).
Proof.
  assert (H0 : 0 <= 0.5) by (vm_compute; discriminate).
  assert (H1 : 0.5 <= inject_Z (10 ^ 308)) by (vm_compute; discriminate).
  destruct (tau_total_positive 0.5 1 H0 H1) as [_ [Ht [_ Hd]]].
  split; [exact Ht | exact (Hd 0.3 1 0.2)].
Defined.

(** C9, as stated for every [a >= 0], fails where [1.5*a] overflows: at
    [a = 1.2e308] the divisor is infinite, [tau] returns [0.0], which is
    not greater than [0], and [dydt] raises [ZeroDivisionError]. *)
Lemma tau_overflows :
  0 <= inject_Z (12 * 10 ^ 307) /\
  B64.tau (B64.of_Z (12 * 10 ^ 307)) B64.zero = Some B64.zero /\
  B64.ltb B64.zero B64.zero = false /\
  B64.dydt (B64.of_Z (12 * 10 ^ 307)) (B64.lit 3 10) (B64.of_Z 1)
    (B64.lit 2 10) = None.
Proof.
  vm_compute. repeat split; discriminate.
Qed.

(** On doubles, at both ends of the range of C9: [tau] is positive and
    [dydt] returns. *)
Example tau_binary64_range_ends :
  B64.positive (B64.tau B64.zero (B64.of_Z 1)) = true /\
  B64.positive (B64.tau B64.zero B64.zero) = true /\
  B64.positive (B64.tau (B64.of_Z (10 ^ 308)) (B64.of_Z 1)) = true /\
  B64.positive (B64.tau (B64.of_Z (10 ^ 308)) (B64.of_Z (15 * 10 ^ 307)))
    = true /\
  B64.dydt (B64.of_Z (10 ^ 308)) (B64.lit 3 10) (B64.of_Z 1) (B64.lit 2 10)
    <> None.
Proof.
  vm_compute. repeat split; discriminate.
Qed.

(** Outside the physical domain the divisions can fail.  In the exact
    model this happens at [a = -1/3]; no double equals [-1/3], and on
    doubles [0.5 + 1.5*a] rounds to [0.0] at the two doubles next to
    it, where [tau] on the deactivating branch and [dydt] on both raise. *)
Example tau_zero_divisor :
  tau (-1 # 3) (-1) = None /\
  B64.tau (S754_finite true 6004799503160661 (-54)) (B64.of_Z (-1)) = None /\
  B64.tau (S754_finite true 6004799503160662 (-54)) (B64.of_Z (-1)) = None /\
  B64.dydt (S754_finite true 6004799503160661 (-54)) (B64.lit 3 10)
    (B64.of_Z 1) (B64.lit 2 10) = None /\
  B64.dydt (S754_finite true 6004799503160662 (-54)) (B64.lit 3 10)
    (B64.of_Z 1) (B64.lit 2 10) = None.
Proof. vm_compute. repeat split. Qed.

(** ** The right-hand side *)

(** C3.  [dydt a t pulse_amplitude pulse_duration] is [(u - a) / tau(a, u)]
    with [u = get_u t pulse_amplitude pulse_duration]: the two agree as
    computations, and whenever [dydt] returns a number it is that quotient.
    The solve that [do_it] starts has initial value [a(0) = 0]. *)
Theorem dydt_equation (a t pa pd : Q) :
  let u := get_u t pa pd in
  dydt a t pa pd = (tv <- tau a u ;; Py.div (u - a) tv) /\
  (forall r, dydt a t pa pd = Some r ->
     exists tv, tau a u = Some tv /\ ~ tv == 0 /\ r = (u - a) / tv) /\
  (forall odeint td,
     run_a (do_it odeint pd pa td) =
     odeint (fun y x => dydt y x pa pd) 0 (time_grid td)).
Proof.
  intros u. split; [reflexivity|]. split; [|reflexivity].
  intros r Hr. unfold dydt in Hr. fold u in Hr.
  destruct (tau a u) as [tv|]; cbn in Hr; [|discriminate].
  exists tv. split; [reflexivity|].
  unfold Py.div in Hr. destruct (Qeq_bool tv 0) eqn:E; [discriminate|].
  split; [now apply Qeq_bool_neq | congruence].
Qed.

Lemma dydt_equation_witness :
  exists tv,
    tau 0 (get_u 0.25 1 0.2) = Some tv /\ ~ tv == 0 /\
    (1 - 0) / (0.001 * (0.5 + 1.5 * 0)) = (get_u 0.25 1 0.2 - 0) / tv.
Proof.
  destruct (dydt_equation 0 0.25 1 0.2) as [_ [H _]].
  apply (H ((1 - 0) / (0.001 * (0.5 + 1.5 * 0)))). reflexivity.
Defined.

Example dydt_equation_values :
  dydt 0 0.25 1 0.2 = Some ((1 - 0) / (0.001 * (0.5 + 1.5 * 0))) /\
  dydt 0.5 0.1 1 0.2 = Some ((0 - 0.5) / (0.080 / (0.5 + 1.5 * 0.5))).
Proof. split; reflexivity. Qed.

(** C5.  For [a] in [[0,1]] and every [t]: the right-hand side is
    non-negative when [u(t) > a] and non-positive when [u(t) <= a]. *)
Theorem dydt_sign (a t pa pd : Q) :
  0 <= a -> a <= 1 ->
  exists r, dydt a t pa pd = Some r /\
    (a < get_u t pa pd -> 0 <= r) /\
    (get_u t pa pd <= a -> r <= 0).
Proof.
  intros Ha _. rewrite dydt_rhs.
  destruct (rhs_defined a (get_u t pa pd) Ha) as [tv [_ [Hp Hr]]].
  rewrite Hr. eexists; split; [reflexivity|]. split; intros H.
  - apply div_nonneg; lra.
  - apply div_nonpos; lra.
Qed.

Lemma dydt_sign_witness :
  exists r, dydt 0.5 0.3 1 0.2 = Some r /\
    (0.5 < get_u 0.3 1 0.2 -> 0 <= r) /\
    (get_u 0.3 1 0.2 <= 0.5 -> r <= 0).
Proof.
  apply (dydt_sign 0.5 0.3 1 0.2); vm_compute; discriminate.
Defined.

(** ** The time grid *)

Lemma inject_Z_pred (z : Z) : inject_Z (z - 1) == inject_Z z - 1.
Proof.
  unfold Z.sub. rewrite inject_Z_plus, inject_Z_opp. reflexivity.
Qed.

Lemma arange_length (stop : Q) :
  length (Py.arange stop) = Z.to_nat (Qceiling stop).
Proof. unfold Py.arange. now rewrite length_map, length_seq. Qed.

Lemma time_grid_length (td : Q) :
  length (time_grid td) = Z.to_nat (Qceiling (td / dt)).
Proof. unfold time_grid. now rewrite length_map, arange_length. Qed.

Lemma time_grid_nth_error (td : Q) (i : nat) :
  (i < length (time_grid td))%nat ->
  nth_error (time_grid td) i = Some (inject_Z (Z.of_nat i) * dt).
Proof.
  intros Hi. rewrite time_grid_length in Hi.
  unfold time_grid, Py.arange.
  rewrite nth_error_map, nth_error_map.
  rewrite (nth_error_nth' _ 0%nat) by now rewrite length_seq.
  now rewrite seq_nth.
Qed.

Lemma time_grid_nth (td : Q) (i : nat) :
  (i < length (time_grid td))%nat ->
  nth i (time_grid td) 0 = inject_Z (Z.of_nat i) * dt.
Proof.
  intros Hi. apply nth_error_nth. now apply time_grid_nth_error.
Qed.

Lemma inject_Z_of_nat_lt (i j : nat) :
  (i < j)%nat -> inject_Z (Z.of_nat i) < inject_Z (Z.of_nat j).
Proof. intros H. rewrite <- Zlt_Qlt. lia. Qed.

Lemma time_grid_increasing (td : Q) (i j : nat) :
  (i < j)%nat -> (j < length (time_grid td))%nat ->
  nth i (time_grid td) 0 < nth j (time_grid td) 0.
Proof.
  intros Hij Hj.
  rewrite !time_grid_nth by lia.
  apply Qmult_lt_compat_r; [reflexivity|].
  now apply inject_Z_of_nat_lt.
Qed.

Lemma last_nth (l : list Q) (d : Q) :
  last l d = nth (length l - 1) l d.
Proof.
  induction l as [|x [|y l] IH]; [reflexivity..|].
  change (last (x :: y :: l) d) with (last (y :: l) d).
  rewrite IH. cbn [length Nat.sub nth]. now rewrite Nat.sub_0_r.
Qed.

Lemma ceiling_pos (x : Q) : 0 < x -> (0 < Qceiling x)%Z.
Proof.
  intros Hx. pose proof (Qle_ceiling x) as Hle.
  destruct (Z_lt_le_dec 0 (Qceiling x)) as [H|H]; [exact H|].
  exfalso. rewrite Zle_Qle in H. change (inject_Z 0) with 0 in H. lra.
Qed.

Lemma time_grid_last (td : Q) :
  0 < td ->
  last (time_grid td) 0 == inject_Z (Qceiling (td / dt) - 1) * dt.
Proof.
  intros Htd.
  assert (Hc : (0 < Qceiling (td / dt))%Z).
  { apply ceiling_pos, div_pos; [exact Htd | reflexivity]. }
  rewrite last_nth, time_grid_nth by (rewrite time_grid_length; lia).
  rewrite time_grid_length.
  replace (Z.of_nat (Z.to_nat (Qceiling (td / dt)) - 1))
    with (Qceiling (td / dt) - 1)%Z by lia.
  reflexivity.
Qed.

Lemma grid_quotient (td : Q) : td / dt * dt == td.
Proof. unfold dt. field. Qed.

Lemma time_grid_last_bounds (td : Q) :
  0 < td ->
  td - dt <= last (time_grid td) 0 /\ last (time_grid td) 0 < td.
Proof.
  intros Htd. rewrite (time_grid_last td Htd).
  pose proof (Qle_ceiling (td / dt)) as Hle.
  pose proof (Qceiling_lt (td / dt)) as Hlt.
  pose proof (grid_quotient td) as Hq.
  rewrite inject_Z_pred in *.
  revert Hle Hlt Hq. generalize (Qceiling (td / dt)). intros c.
  generalize (td / dt). unfold dt.
  intros x Hle Hlt Hq. split; lra.
Qed.

Lemma time_grid_integral (td : Q) (n : Z) :
  0 < td -> td == inject_Z n * dt ->
  length (time_grid td) = Z.to_nat n /\ last (time_grid td) 0 == td - dt.
Proof.
  intros Htd Hn.
  assert (Hc : Qceiling (td / dt) = n).
  { rewrite <- (Qceiling_Z n). apply Qceiling_comp.
    rewrite Hn. unfold dt. field. }
  split.
  - now rewrite time_grid_length, Hc.
  - rewrite (time_grid_last td Htd), Hc, Hn.
    rewrite inject_Z_pred. ring.
Qed.

(** C8, as the code has it.  For a run of positive [total_duration] the
    time grid is not empty, starts at [0], has [i * dt] as its [i]-th
    element with [dt = 0.0001], and is strictly increasing.  Its length is
    the ceiling of [total_duration / dt] (the length of [numpy.arange]), so
    its last point lies in [[total_duration - dt, total_duration)]; the
    length is [total_duration / dt] itself and the last point is
    [total_duration - dt] when [total_duration] is a whole multiple of
    [dt]. *)
Theorem time_grid_shape (td : Q) :
  0 < td ->
  length (time_grid td) = Z.to_nat (Qceiling (td / dt)) /\
  (exists x, hd_error (time_grid td) = Some x /\ x == 0) /\
  (forall i, (i < length (time_grid td))%nat ->
     nth_error (time_grid td) i = Some (inject_Z (Z.of_nat i) * 0.0001)) /\
  (forall i j, (i < j)%nat -> (j < length (time_grid td))%nat ->
     nth i (time_grid td) 0 < nth j (time_grid td) 0) /\
  last (time_grid td) 0 == inject_Z (Qceiling (td / dt) - 1) * dt /\
  td - dt <= last (time_grid td) 0 /\
  last (time_grid td) 0 < td /\
  (forall n : Z, td == inject_Z n * dt ->
     length (time_grid td) = Z.to_nat n /\
     last (time_grid td) 0 == td - dt).
Proof.
  intros Htd.
  assert (Hc : (0 < Qceiling (td / dt))%Z)
    by (apply ceiling_pos, div_pos; [exact Htd | reflexivity]).
  split; [apply time_grid_length|]. split.
  { exists (inject_Z (Z.of_nat 0) * dt). split; [|reflexivity].
    rewrite <- (time_grid_nth_error td 0) by (rewrite time_grid_length; lia).
    now destruct (time_grid td). }
  split; [apply time_grid_nth_error|].
  split; [apply time_grid_increasing|].
  split; [now apply time_grid_last|].
  split; [now apply time_grid_last_bounds|].
  split; [now apply time_grid_last_bounds|].
  intros n Hn. now apply time_grid_integral.
Qed.

Lemma time_grid_shape_witness :
  0 < 0.0005 /\
  length (time_grid 0.0005) = 5%nat /\
  last (time_grid 0.0005) 0 == 0.0005 - dt.
Proof.
  assert (H : 0 < 0.0005) by reflexivity.
  split; [exact H|].
  destruct (time_grid_shape 0.0005 H) as [_ [_ [_ [_ [_ [_ [_ Hn]]]]]]].
  apply (Hn 5%Z). reflexivity.
Defined.

(** The default run: ten thousand points, from [0] to [0.9999]. *)
Example time_grid_default :
  Z.of_nat (length (time_grid default_total_duration)) = 10000%Z /\
  hd_error (time_grid default_total_duration) = Some (0 * dt) /\
  last (time_grid default_total_duration) 0 == 0.9999.
Proof. vm_compute. repeat split. Qed.

(** C8, as stated, fails on a duration that is not a multiple of [dt]:
    for [total_duration = 0.50005] the quotient is [5000.5], whose integer
    part is [5000], but the grid has [5001] points and ends at [0.5], not
    at [total_duration - dt = 0.49995]. *)
Lemma time_grid_not_integer_part :
  Z.of_nat (length (time_grid 0.50005)) = 5001%Z /\
  Qfloor (0.50005 / dt) = 5000%Z /\
  last (time_grid 0.50005) 0 == 0.5 /\
  length (time_grid 0.50005) <> Z.to_nat (Qfloor (0.50005 / dt)) /\
  ~ last (time_grid 0.50005) 0 == 0.50005 - dt.
Proof.
  vm_compute. repeat split; discriminate.
Qed.

(** ** Closed forms of the right-hand side on [a >= 0] *)

Lemma rhs_activating (a u : Q) :
  0 <= a -> a < u ->
  exists r, rhs a u = Some r /\
    r * (0.5 + 1.5 * a) == 1000 * (u - a) /\ 0 <= r.
Proof.
  intros Ha Hu. unfold rhs. rewrite (tau_activating a u Hu). cbn.
  rewrite div_some by lra. eexists; split; [reflexivity|]. split.
  - field. lra.
  - apply div_nonneg; lra.
Qed.

Lemma rhs_deactivating (a u : Q) :
  0 <= a -> u <= a ->
  exists r, rhs a u = Some r /\
    r == 12.5 * (u - a) * (0.5 + 1.5 * a).
Proof.
  intros Ha Hu. unfold rhs. rewrite (tau_deactivating a u Hu).
  rewrite div_some by lra. cbn.
  assert (Hd : ~ 0.080 / (0.5 + 1.5 * a) == 0).
  { assert (0 < 0.080 / (0.5 + 1.5 * a)) by (apply div_pos; lra). lra. }
  rewrite div_some by exact Hd. eexists; split; [reflexivity|].
  field. lra.
Qed.

(** ** Rest at zero excitation *)

Lemma get_u_zero_amplitude (t pd : Q) : get_u t 0 pd = 0.
Proof.
  unfold get_u. now destruct (Py.ltb 0.2 t && Py.ltb t (0.2 + pd)).
Qed.

Lemma dydt_rest (y t pd : Q) :
  y == 0 -> exists r, dydt y t 0 pd = Some r /\ r == 0.
Proof.
  intros Hy. rewrite dydt_rhs, get_u_zero_amplitude.
  destruct (rhs_deactivating y 0) as [r [Hr He]]; [lra..|].
  exists r. split; [exact Hr|]. rewrite He, Hy. reflexivity.
Qed.

Lemma euler_from_rest (f : Q -> Q -> option Q) (y0 : Q) :
  (forall y t, y == y0 -> exists r, f y t = Some r /\ r == 0) ->
  forall ts y tprev, y == y0 ->
    Forall (fun z => z == y0) (euler_from f y tprev ts).
Proof.
  intros Hf. induction ts as [|t ts IH]; intros y tprev Hy; cbn.
  - constructor.
  - assert (Hs : euler_step f (t - tprev) y tprev == y0).
    { unfold euler_step. destruct (Hf y tprev Hy) as [r [Hr H0]].
      rewrite Hr, H0, Hy. ring. }
    constructor; [exact Hs | now apply IH].
Qed.

Lemma euler_from_length (f : Q -> Q -> option Q) (ts : list Q) :
  forall y tprev, length (euler_from f y tprev ts) = length ts.
Proof.
  induction ts as [|t ts IH]; intros y tprev; cbn; [reflexivity|].
  now rewrite IH.
Qed.

Lemma euler_length (f : Q -> Q -> option Q) (y0 : Q) (ts : list Q) :
  length (euler f y0 ts) = length ts.
Proof.
  destruct ts as [|t0 ts]; cbn; [reflexivity|].
  now rewrite euler_from_length.
Qed.

Lemma euler_keeps_rest : keeps_rest euler.
Proof.
  intros f y0 [|t0 ts] Hf; cbn; constructor.
  - reflexivity.
  - now apply euler_from_rest.
Qed.

(** C6.  With [pulse_amplitude = 0]: [get_u] is [0] at every time, the
    right-hand side at [a = 0] is [0] at every time, so [a = 0] is a rest
    point, and the activation trace of [do_it], started from [a(0) = 0],
    has one sample for each point of the time grid and is [0] at every
    one of them.  The trace is the output of the integrator; the
    integrator is any one that returns a sample per time point and keeps
    a rest point. *)
Theorem zero_pulse_trace
    (odeint : (Q -> Q -> option Q) -> Q -> list Q -> list Q)
    (t pd td : Q) :
  keeps_rest odeint ->
  (forall f y0 ts, length (odeint f y0 ts) = length ts) ->
  get_u t 0 pd = 0 /\
  (exists r, dydt 0 t 0 pd = Some r /\ r == 0) /\
  length (run_a (do_it odeint pd 0 td)) = length (time_grid td) /\
  (forall i, (i < length (time_grid td))%nat ->
     nth_error (run_t (do_it odeint pd 0 td)) i
       = Some (inject_Z (Z.of_nat i) * dt) /\
     exists a, nth_error (run_a (do_it odeint pd 0 td)) i = Some a /\
               a == 0).
Proof.
  intros Hk Hlen. split; [apply get_u_zero_amplitude|]. split.
  { apply dydt_rest. reflexivity. }
  assert (Hl : length (run_a (do_it odeint pd 0 td)) = length (time_grid td))
    by (cbn; apply Hlen).
  split; [exact Hl|].
  intros i Hi. split; [now apply time_grid_nth_error|].
  destruct (nth_error (run_a (do_it odeint pd 0 td)) i) as [a|] eqn:E.
  - exists a. split; [reflexivity|].
    assert (Ha : Forall (fun y => y == 0) (run_a (do_it odeint pd 0 td))).
    { cbn. apply Hk. intros y x Hy. now apply dydt_rest. }
    rewrite Forall_forall in Ha. apply Ha. now apply nth_error_In with i.
  - apply nth_error_None in E. lia.
Qed.

Lemma zero_pulse_trace_witness :
  length (run_a (do_it euler 0.2 0 0.0005)) = length (time_grid 0.0005) /\
  exists a, nth_error (run_a (do_it euler 0.2 0 0.0005)) 4 = Some a /\ a == 0.
Proof.
  destruct (zero_pulse_trace euler 0.3 0.2 0.0005 euler_keeps_rest
              euler_length) as [_ [_ [Hl Ha]]].
  split; [exact Hl|].
  apply (Ha 4%nat). rewrite time_grid_length. vm_compute. lia.
Defined.

Example zero_pulse_euler_run :
  map Qred (run_a (do_it euler 0.2 0 0.0003)) = [0; 0; 0].
Proof. reflexivity. Qed.

(** ** The unit interval

    Nothing in the notebook keeps the activation in [[0,1]]: the trace is
    whatever the integrator returns.  The integrator is a parameter here,
    and what holds depends on the length of its steps.  The right-hand
    side points into [[0,1]] at both ends of the interval, and a step
    [a + h * dydt(a, t)] of length at most [0.0005] keeps the state in
    [[0,1]]; a longer step can leave it. *)

Lemma get_u_range (t pa pd : Q) :
  0 <= pa -> pa <= 1 -> 0 <= get_u t pa pd /\ get_u t pa pd <= 1.
Proof.
  intros H0 H1. unfold get_u.
  destruct (Py.ltb 0.2 t && Py.ltb t (0.2 + pd)); split; lra.
Qed.


Lemma euler_step_unit_interval (h a t pa pd : Q) :
  0 <= pa -> pa <= 1 -> 0 <= h -> h <= 0.0005 ->
  0 <= a -> a <= 1 ->
  0 <= euler_step (fun y x => dydt y x pa pd) h a t /\
  euler_step (fun y x => dydt y x pa pd) h a t <= 1.
Proof.
  intros Hp0 Hp1 Hh0 Hh1 Ha0 Ha1.
  destruct (get_u_range t pa pd Hp0 Hp1) as [Hu0 Hu1].
  unfold euler_step. rewrite dydt_rhs.
  generalize dependent (get_u t pa pd). intros u Hu0 Hu1.
  destruct (Qlt_le_dec a u) as [H|H].
  - destruct (rhs_activating a u Ha0 H) as [r [Hr [He Hr0]]]. rewrite Hr.
    assert (H1 : h * r <= 0.0005 * r) by nra.
    assert (H2 : 0.001 * r * 0.5 <= 0.001 * r * (0.5 + 1.5 * a)) by nra.
    assert (H3 : 0 <= h * r) by nra.
    split; lra.
  - destruct (rhs_deactivating a u Ha0 H) as [r [Hr He]]. rewrite Hr.
    assert (H1 : h * r == (h * 12.5 * (0.5 + 1.5 * a)) * (u - a))
      by (rewrite He; ring).
    assert (H2 : 0 <= h * 12.5 * (0.5 + 1.5 * a)) by nra.
    assert (H3 : h * 12.5 * (0.5 + 1.5 * a) <= 1) by nra.
    assert (H4 : u - a <= (h * 12.5 * (0.5 + 1.5 * a)) * (u - a)) by nra.
    assert (H5 : (h * 12.5 * (0.5 + 1.5 * a)) * (u - a) <= 0) by nra.
    split; lra.
Qed.

Lemma euler_from_unit_interval (pa pd : Q) :
  0 <= pa -> pa <= 1 ->
  forall ts y tprev,
    0 <= y -> y <= 1 -> spaced 0.0005 tprev ts ->
    Forall (fun a => 0 <= a /\ a <= 1)
      (euler_from (fun y x => dydt y x pa pd) y tprev ts).
Proof.
  intros Hp0 Hp1. induction ts as [|t ts IH]; intros y tprev Hy0 Hy1 Hs; cbn.
  - constructor.
  - destruct Hs as [Hs0 [Hs1 Hs]].
    pose proof (euler_step_unit_interval (t - tprev) y tprev pa pd
                  Hp0 Hp1 Hs0 Hs1 Hy0 Hy1) as [H0 H1].
    constructor; [now split | now apply IH].
Qed.

Lemma spaced_seq (n k : nat) :
  spaced 0.0005 (inject_Z (Z.of_nat k) * dt)
    (map (fun x => x * dt)
       (map (fun i : nat => inject_Z (Z.of_nat i)) (seq (S k) n))).
Proof.
  revert k. induction n as [|n IH]; intros k; cbn [seq map spaced].
  - exact I.
  - split; [|split; [|apply IH]].
    + rewrite Nat2Z.inj_succ. unfold Z.succ. rewrite inject_Z_plus.
      change (inject_Z 1) with 1. unfold dt. lra.
    + rewrite Nat2Z.inj_succ. unfold Z.succ. rewrite inject_Z_plus.
      change (inject_Z 1) with 1. unfold dt. lra.
Qed.

(** The Euler integrator on the grid of [do_it] keeps the activation in
    [[0,1]]. *)
Lemma euler_run_unit_interval (pd pa td : Q) :
  0 <= pa -> pa <= 1 ->
  Forall (fun a => 0 <= a /\ a <= 1) (run_a (do_it euler pd pa td)).
Proof.
  intros Hp0 Hp1. cbn. unfold time_grid, Py.arange.
  destruct (Z.to_nat (Qceiling (td / dt))) as [|n]; cbn [seq map euler].
  - constructor.
  - constructor; [unfold a0; split; lra|].
    apply euler_from_unit_interval; try assumption; try (unfold a0; lra).
    apply (spaced_seq n 0).
Qed.

(** An Euler step of length [0.001] from [a = 0] inside a full pulse lands
    on [2]. *)
Example euler_coarse_step_overshoots :
  Qred (euler_step (fun y x => dydt y x 1 0.2) 0.001 0 0.25) = 2.
Proof. reflexivity. Qed.







(** ** Lipschitz continuity of the right-hand side *)

Lemma scale_le (k x y : Q) : 0 <= k -> x <= y -> k * x <= k * y.
Proof. intros Hk Hxy. nra. Qed.

(** One side of the Lipschitz bound, with [A] and [U] bounding the
    distances in [a] and in [u]. *)
Lemma rhs_diff_le (a1 u1 a2 u2 r1 r2 A U : Q) :
  0 <= a1 -> a1 <= 1 -> 0 <= u1 -> u1 <= 1 ->
  0 <= a2 -> a2 <= 1 -> 0 <= u2 -> u2 <= 1 ->
  rhs a1 u1 = Some r1 -> rhs a2 u2 = Some r2 ->
  a1 - a2 <= A -> a2 - a1 <= A -> u1 - u2 <= U -> u2 - u1 <= U ->
  r1 - r2 <= 8000 * A + 2000 * U.
Proof.
  intros Ha1 Ha1' Hu1 Hu1' Ha2 Ha2' Hu2 Hu2' Hr1 Hr2 HA HA' HU HU'.
  assert (HA0 : 0 <= A) by lra. assert (HU0 : 0 <= U) by lra.
  destruct (Qlt_le_dec a1 u1) as [B1|B1]; destruct (Qlt_le_dec a2 u2) as [B2|B2].
  - (* both activating *)
    destruct (rhs_activating a1 u1 Ha1 B1) as [s1 [Hs1 [E1 P1]]].
    destruct (rhs_activating a2 u2 Ha2 B2) as [s2 [Hs2 [E2 P2]]].
    rewrite Hr1 in Hs1. rewrite Hr2 in Hs2.
    injection Hs1 as <-. injection Hs2 as <-.
    apply (Qmult_le_r _ _ ((0.5 + 1.5 * a1) * (0.5 + 1.5 * a2))); [nra|].
    assert (E : (r1 - r2) * ((0.5 + 1.5 * a1) * (0.5 + 1.5 * a2)) ==
                1000 * ((u1 - u2) * (0.5 + 1.5 * a1)
                        - (0.5 + 1.5 * u1) * (a1 - a2))).
    { transitivity ((r1 * (0.5 + 1.5 * a1)) * (0.5 + 1.5 * a2)
                    - (r2 * (0.5 + 1.5 * a2)) * (0.5 + 1.5 * a1)); [ring|].
      rewrite E1, E2. ring. }
    rewrite E.
    assert (G1 : (u1 - u2) * (0.5 + 1.5 * a1) <= U * (0.5 + 1.5 * a1)) by nra.
    assert (G2 : - ((0.5 + 1.5 * u1) * (a1 - a2)) <= 2 * A) by nra.
    assert (G3 : 0.25 <= (0.5 + 1.5 * a1) * (0.5 + 1.5 * a2)) by nra.
    assert (G4 : (8000 * A) * 0.25
                 <= (8000 * A) * ((0.5 + 1.5 * a1) * (0.5 + 1.5 * a2)))
      by (apply scale_le; lra).
    assert (G5 : (2000 * U * (0.5 + 1.5 * a1)) * 0.5
                 <= (2000 * U * (0.5 + 1.5 * a1)) * (0.5 + 1.5 * a2))
      by (apply scale_le; nra).
    lra.
  - (* first activating, second deactivating *)
    destruct (rhs_activating a1 u1 Ha1 B1) as [s1 [Hs1 [E1 P1]]].
    destruct (rhs_deactivating a2 u2 Ha2 B2) as [s2 [Hs2 E2]].
    rewrite Hr1 in Hs1. rewrite Hr2 in Hs2.
    injection Hs1 as <-. injection Hs2 as <-.
    assert (G1 : r1 * 0.5 <= r1 * (0.5 + 1.5 * a1)) by nra.
    assert (G2 : (a2 - u2) * (0.5 + 1.5 * a2) <= (a2 - u2) * 2) by nra.
    lra.
  - (* first deactivating, second activating *)
    destruct (rhs_deactivating a1 u1 Ha1 B1) as [s1 [Hs1 E1]].
    destruct (rhs_activating a2 u2 Ha2 B2) as [s2 [Hs2 [E2 P2]]].
    rewrite Hr1 in Hs1. rewrite Hr2 in Hs2.
    injection Hs1 as <-. injection Hs2 as <-.
    assert (G1 : 0 <= (a1 - u1) * (0.5 + 1.5 * a1)) by nra.
    lra.
  - (* both deactivating *)
    destruct (rhs_deactivating a1 u1 Ha1 B1) as [s1 [Hs1 E1]].
    destruct (rhs_deactivating a2 u2 Ha2 B2) as [s2 [Hs2 E2]].
    rewrite Hr1 in Hs1. rewrite Hr2 in Hs2.
    injection Hs1 as <-. injection Hs2 as <-.
    assert (E : r1 - r2 ==
                (u1 - u2) * (12.5 * (0.5 + 1.5 * a2))
                + (a1 - a2) * (12.5 * (-0.5 + 1.5 * u1 - 1.5 * (a1 + a2))))
      by (rewrite E1, E2; ring).
    rewrite E.
    assert (G1 : (u1 - u2) * (12.5 * (0.5 + 1.5 * a2)) <= U * 25) by nra.
    assert (G2 : (a1 - a2) * (12.5 * (-0.5 + 1.5 * u1 - 1.5 * (a1 + a2)))
                 <= A * 43.75).
    { destruct (Qlt_le_dec (-0.5 + 1.5 * u1 - 1.5 * (a1 + a2)) 0); nra. }
    lra.
Qed.

Lemma abs_diff_bounds (x y : Q) :
  x - y <= Qabs (x - y) /\ y - x <= Qabs (x - y).
Proof.
  split.
  - apply Qle_Qabs.
  - rewrite <- Qabs_opp. setoid_replace (- (x - y)) with (y - x) by ring.
    apply Qle_Qabs.
Qed.

(** C7.  On [a] in [[0,1]] and [u] in [[0,1]] the right-hand side
    [(a, u) |-> (u - a) / tau(a, u)] is defined and Lipschitz continuous in
    the pair [(a, u)], with constants [8000] in [a] and [2000] in [u].  At
    the switching surface [u = a] both branch expressions are [0], so the
    switch of branch does not make the value jump.  The function is not
    smooth there: across the surface the slope in [u] is at least [500] on
    the activating side and at most [25] on the deactivating side.  [dydt]
    is this function at [u = get_u t pulse_amplitude pulse_duration]. *)
Theorem rhs_lipschitz (a1 u1 a2 u2 : Q) :
  0 <= a1 -> a1 <= 1 -> 0 <= u1 -> u1 <= 1 ->
  0 <= a2 -> a2 <= 1 -> 0 <= u2 -> u2 <= 1 ->
  (exists r1 r2,
     rhs a1 u1 = Some r1 /\ rhs a2 u2 = Some r2 /\
     Qabs (r1 - r2) <= 8000 * Qabs (a1 - a2) + 2000 * Qabs (u1 - u2)) /\
  ((a1 - a1) / (0.001 * (0.5 + 1.5 * a1)) == 0 /\
   (a1 - a1) / (0.080 / (0.5 + 1.5 * a1)) == 0 /\
   exists r, rhs a1 a1 = Some r /\ r == 0) /\
  (forall h, 0 < h ->
     exists rp rm,
       rhs a1 (a1 + h) = Some rp /\ rhs a1 (a1 - h) = Some rm /\
       500 * h <= rp /\ - (25 * h) <= rm /\ rm <= 0) /\
  (forall t pa pd, dydt a1 t pa pd = rhs a1 (get_u t pa pd)).
Proof.
  intros Ha1 Ha1' Hu1 Hu1' Ha2 Ha2' Hu2 Hu2'.
  split; [|split; [|split]].
  - destruct (rhs_defined a1 u1 Ha1) as [tv1 [_ [_ Hr1]]].
    destruct (rhs_defined a2 u2 Ha2) as [tv2 [_ [_ Hr2]]].
    eexists; eexists. split; [exact Hr1|]. split; [exact Hr2|].
    destruct (abs_diff_bounds a1 a2) as [HA HA'].
    destruct (abs_diff_bounds u1 u2) as [HU HU'].
    apply Qabs_Qle_condition. split.
    + pose proof (rhs_diff_le a2 u2 a1 u1 _ _ _ _
                    Ha2 Ha2' Hu2 Hu2' Ha1 Ha1' Hu1 Hu1' Hr2 Hr1
                    HA' HA HU' HU) as H.
      lra.
    + exact (rhs_diff_le a1 u1 a2 u2 _ _ _ _
               Ha1 Ha1' Hu1 Hu1' Ha2 Ha2' Hu2 Hu2' Hr1 Hr2 HA HA' HU HU').
  - assert (Hz : a1 - a1 == 0) by ring.
    split; [|split].
    + rewrite Hz. unfold Qdiv. ring.
    + rewrite Hz. unfold Qdiv. ring.
    + destruct (rhs_deactivating a1 a1 Ha1 (Qle_refl a1)) as [r [Hr He]].
      exists r. split; [exact Hr|]. rewrite He. ring.
  - intros h Hh.
    destruct (rhs_activating a1 (a1 + h) Ha1) as [rp [Hp [Ep Pp]]]; [lra|].
    destruct (rhs_deactivating a1 (a1 - h) Ha1) as [rm [Hm Em]]; [lra|].
    exists rp, rm. split; [exact Hp|]. split; [exact Hm|].
    assert (G1 : rp * (0.5 + 1.5 * a1) <= rp * 2) by (apply scale_le; lra).
    assert (G2 : h * (0.5 + 1.5 * a1) <= h * 2) by (apply scale_le; lra).
    assert (G3 : 0 <= h * (0.5 + 1.5 * a1)) by nra.
    split; [lra|]. split; lra.
  - intros t pa pd. apply dydt_rhs.
Qed.

Lemma rhs_lipschitz_witness :
  exists r1 r2,
    rhs 0.2 1 = Some r1 /\ rhs 0.6 0 = Some r2 /\
    Qabs (r1 - r2) <= 8000 * Qabs (0.2 - 0.6) + 2000 * Qabs (1 - 0).
Proof.
  destruct (rhs_lipschitz 0.2 1 0.6 0) as [H _];
    [vm_compute; discriminate..|].
  exact H.
Defined.

(** The values behind the witness: [1000] on the activating side,
    [-21/2] on the deactivating side. *)
Example rhs_values :
  option_map Qred (rhs 0.2 1) = Some 1000 /\
  option_map Qred (rhs 0.6 0) = Some (-21 # 2).
Proof. vm_compute. split; reflexivity. Qed.

(** ** Rest points, and the sign outside the physical domain

    The lemmas of this section are about the exact model, where the
    divisor vanishes at [a = -1/3] only; the theorems are stated on ranges
    of [a] on which the doubles behave in the same way. *)

Lemma div_none_iff (x y : Q) : Py.div x y = None <-> y == 0.
Proof.
  split.
  - unfold Py.div. destruct (Qeq_bool y 0) eqn:E; [|discriminate].
    intros _. now apply Qeq_bool_eq.
  - apply div_none.
Qed.

Lemma deact_quotient_nonzero (d : Q) : ~ d == 0 -> ~ 0.080 / d == 0.
Proof.
  intros Hd H. apply Hd.
  assert (E : 0.080 / d * d == 0.080) by (field; exact Hd).
  rewrite H in E. lra.
Qed.

Lemma rhs_none_iff (a u : Q) : rhs a u = None <-> a == - (1 # 3).
Proof.
  unfold rhs, tau. destruct (Py.ltb a u); cbn.
  - rewrite div_none_iff. split; intros H; lra.
  - destruct (Py.div 0.080 (0.5 + 1.5 * a)) as [tv|] eqn:E; cbn.
    + assert (Hd : ~ 0.5 + 1.5 * a == 0).
      { intros H. apply (div_none 0.080) in H. congruence. }
      rewrite (div_some _ _ Hd) in E. injection E as <-.
      rewrite div_none_iff. split; intros H.
      * exfalso. revert H. now apply deact_quotient_nonzero.
      * exfalso. lra.
    + apply div_none_iff in E. split; intros H; [lra | reflexivity].
Qed.

Lemma tau_value (a u tv : Q) :
  tau a u = Some tv ->
  (a < u /\ tv == 0.001 * (0.5 + 1.5 * a)) \/
  (u <= a /\ ~ 0.5 + 1.5 * a == 0 /\ tv * (0.5 + 1.5 * a) == 0.080).
Proof.
  intros Ht. destruct (Qlt_le_dec a u) as [H|H].
  - rewrite (tau_activating a u H) in Ht. injection Ht as <-.
    left. split; [exact H | reflexivity].
  - rewrite (tau_deactivating a u H) in Ht.
    assert (Hd : ~ 0.5 + 1.5 * a == 0).
    { intros E. apply (div_none 0.080) in E. congruence. }
    rewrite (div_some _ _ Hd) in Ht. injection Ht as <-.
    right. split; [exact H|]. split; [exact Hd|]. field. exact Hd.
Qed.

Lemma tau_value_sign (a u tv : Q) :
  tau a u = Some tv ->
  (0 < tv <-> - (1 # 3) < a) /\ (tv < 0 <-> a < - (1 # 3)).
Proof.
  intros Ht. destruct (tau_value a u tv Ht) as [[_ E]|[_ [Hd E]]].
  - rewrite E. split; split; intros H; lra.
  - destruct (Qlt_le_dec 0 (0.5 + 1.5 * a)) as [Hp|Hn].
    + assert (0 < tv) by nra. split; split; intros H'; lra.
    + assert (Hn' : 0.5 + 1.5 * a < 0) by lra.
      assert (tv < 0) by nra. split; split; intros H'; lra.
Qed.

Lemma rhs_value (a u r : Q) :
  rhs a u = Some r ->
  exists tv, tau a u = Some tv /\ ~ tv == 0 /\ r * tv == u - a.
Proof.
  unfold rhs. destruct (tau a u) as [tv|]; cbn; [|discriminate].
  intros Hr. exists tv. split; [reflexivity|].
  assert (Hd : ~ tv == 0).
  { intros E. apply (div_none (u - a)) in E. congruence. }
  split; [exact Hd|]. rewrite (div_some _ _ Hd) in Hr. injection Hr as <-.
  field. exact Hd.
Qed.

(** The rest points of the activation equation.  For [a] in [[0,1]] the
    right-hand side is defined, it vanishes exactly where the activation
    equals the excitation, and it has the sign of [u - a]: the activation
    always moves towards the excitation. *)
Theorem dydt_restoring (a t pa pd : Q) :
  0 <= a -> a <= 1 ->
  exists r, dydt a t pa pd = Some r /\
    (r == 0 <-> get_u t pa pd == a) /\
    (0 < r <-> a < get_u t pa pd) /\
    (r < 0 <-> get_u t pa pd < a).
Proof.
  intros Ha _. rewrite dydt_rhs. generalize (get_u t pa pd). intros u.
  destruct (rhs a u) as [r|] eqn:Hr.
  - exists r. split; [reflexivity|].
    destruct (rhs_value a u r Hr) as [tv [Ht [_ E]]].
    destruct (tau_value_sign a u tv Ht) as [[_ Hp] _].
    assert (Hpos : 0 < tv) by (apply Hp; lra).
    split; [|split]; split; intros H; nra.
  - apply rhs_none_iff in Hr. lra.
Qed.

Lemma dydt_restoring_witness :
  exists r, dydt 0.5 0.3 1 0.2 = Some r /\
    (r == 0 <-> get_u 0.3 1 0.2 == 0.5) /\
    (0 < r <-> 0.5 < get_u 0.3 1 0.2) /\
    (r < 0 <-> get_u 0.3 1 0.2 < 0.5).
Proof.
  apply (dydt_restoring 0.5 0.3 1 0.2); vm_compute; discriminate.
Defined.

(** Below [a = -1/3] the sign is reversed.  For [-1e308 <= a <= -0.34]
    the right-hand side is defined but drives the activation away from
    the excitation: it is negative when the excitation is above [a] and
    positive when it is below. *)
Theorem dydt_repelling (a t pa pd : Q) :
  - inject_Z (10 ^ 308) <= a -> a <= -0.34 ->
  exists r, dydt a t pa pd = Some r /\
    (0 < r <-> get_u t pa pd < a) /\
    (r < 0 <-> a < get_u t pa pd).
Proof.
  intros _ Ha. rewrite dydt_rhs. generalize (get_u t pa pd). intros u.
  destruct (rhs a u) as [r|] eqn:Hr.
  - exists r. split; [reflexivity|].
    destruct (rhs_value a u r Hr) as [tv [Ht [_ E]]].
    destruct (tau_value_sign a u tv Ht) as [_ [_ Hn]].
    assert (Hneg : tv < 0) by (apply Hn; lra).
    split; split; intros H; nra.
  - apply rhs_none_iff in Hr. lra.
Qed.

Lemma dydt_repelling_witness :
  exists r, dydt (-1) 0.3 1 0.2 = Some r /\
    (0 < r <-> get_u 0.3 1 0.2 < -1) /\
    (r < 0 <-> -1 < get_u 0.3 1 0.2).
Proof.
  apply (dydt_repelling (-1) 0.3 1 0.2); vm_compute; discriminate.
Defined.

(** On doubles, at both ends of that range and for an excitation on
    either side: the right-hand side returns, negative for an excitation
    above [a] and positive for one below. *)
Example dydt_repelling_binary64 :
  B64.negative (B64.dydt (B64.lit (-34) 100) (B64.lit 3 10) (B64.of_Z 1)
                  (B64.lit 2 10)) = true /\
  B64.positive (B64.dydt (B64.lit (-34) 100) (B64.lit 3 10) (B64.of_Z (-1))
                  (B64.lit 2 10)) = true /\
  B64.negative (B64.dydt (B64.of_Z (- 10 ^ 308)) (B64.lit 3 10) (B64.of_Z 1)
                  (B64.lit 2 10)) = true /\
  B64.positive (B64.dydt (B64.of_Z (- 10 ^ 308)) (B64.lit 3 10)
                  (B64.of_Z (- (15 * 10 ^ 307))) (B64.lit 2 10)) = true.
Proof.
  vm_compute. repeat split.
Qed.

(** ** Rates of rise and of decay *)

(** On the unit square the rate of activation lies between [500] and
    [2000] times the gap [u - a] while rising, and between [6.25] and [25]
    times the gap while decaying: a rise is at least twenty times faster
    than a decay over the same gap, and the rate never leaves
    [[-25, 2000]]. *)
Theorem dydt_rate_bounds (a t pa pd : Q) :
  0 <= a -> a <= 1 -> 0 <= pa -> pa <= 1 ->
  exists r, dydt a t pa pd = Some r /\
    (a < get_u t pa pd ->
       500 * (get_u t pa pd - a) <= r /\ r <= 2000 * (get_u t pa pd - a)) /\
    (get_u t pa pd <= a ->
       25 * (get_u t pa pd - a) <= r /\ r <= 6.25 * (get_u t pa pd - a)) /\
    -25 <= r /\ r <= 2000.
Proof.
  intros Ha0 Ha1 Hp0 Hp1.
  destruct (get_u_range t pa pd Hp0 Hp1) as [Hu0 Hu1].
  rewrite dydt_rhs. revert Hu0 Hu1. generalize (get_u t pa pd).
  intros u Hu0 Hu1.
  destruct (Qlt_le_dec a u) as [H|H].
  - destruct (rhs_activating a u Ha0 H) as [r [Hr [E Hr0]]].
    exists r. split; [exact Hr|].
    assert (G1 : r * 0.5 <= r * (0.5 + 1.5 * a)) by (apply scale_le; lra).
    assert (G2 : r * (0.5 + 1.5 * a) <= r * 2) by (apply scale_le; lra).
    split; [intros _; split; lra|]. split; [intros H'; lra|]. split; lra.
  - destruct (rhs_deactivating a u Ha0 H) as [r [Hr E]].
    exists r. split; [exact Hr|].
    assert (G1 : (a - u) * 0.5 <= (a - u) * (0.5 + 1.5 * a))
      by (apply scale_le; lra).
    assert (G2 : (a - u) * (0.5 + 1.5 * a) <= (a - u) * 2)
      by (apply scale_le; lra).
    split; [intros H'; lra|]. split; [intros _; split; lra|]. split; lra.
Qed.

Lemma dydt_rate_bounds_witness :
  exists r, dydt 0.5 0.3 1 0.2 = Some r /\ -25 <= r /\ r <= 2000.
Proof.
  destruct (dydt_rate_bounds 0.5 0.3 1 0.2) as [r [Hr [_ [_ Hb]]]];
    [vm_compute; discriminate..|].
  exists r. split; [exact Hr | exact Hb].
Defined.

(** Before the pulse, that is for [t <= 0.2], the right-hand side on [a]
    in [[0,1]] is the decay [-12.5 * a * (0.5 + 1.5*a)], the same for every
    amplitude and duration; at [a = 0] it is [0], so nothing moves the
    activation from rest before the pulse. *)
Theorem dydt_before_pulse (a t pa pd : Q) :
  0 <= a -> a <= 1 -> t <= 0.2 ->
  exists r, dydt a t pa pd = Some r /\
    r == - (12.5 * a * (0.5 + 1.5 * a)) /\
    (a == 0 -> r == 0).
Proof.
  intros Ha _ Ht. rewrite dydt_rhs.
  rewrite (get_u_outside t pa pd) by (intros [H1 H2]; lra).
  destruct (rhs_deactivating a 0 Ha Ha) as [r [Hr E]].
  exists r. split; [exact Hr|]. split.
  - rewrite E. ring.
  - intros H0. rewrite E, H0. ring.
Qed.

Lemma dydt_before_pulse_witness :
  exists r, dydt 0.5 0.1 1 0.2 = Some r /\
    r == - (12.5 * 0.5 * (0.5 + 1.5 * 0.5)) /\ (0.5 == 0 -> r == 0).
Proof.
  apply (dydt_before_pulse 0.5 0.1 1 0.2); vm_compute; discriminate.
Defined.

(** ** The pulse as a function of its parameters *)

(** [get_u] takes no value but [0] and the amplitude, it is linear in the
    amplitude, and for a non-negative amplitude a longer pulse is nowhere
    below a shorter one. *)
Theorem get_u_parameters (t pa pd : Q) :
  (get_u t pa pd = 0 \/ get_u t pa pd = pa) /\
  (forall k, get_u t (k * pa) pd == k * get_u t pa pd) /\
  (forall pd', 0 <= pa -> pd <= pd' -> get_u t pa pd <= get_u t pa pd').
Proof.
  split; [|split].
  - unfold get_u.
    destruct (Py.ltb 0.2 t && Py.ltb t (0.2 + pd)); [now right | now left].
  - intros k. unfold get_u.
    destruct (Py.ltb 0.2 t && Py.ltb t (0.2 + pd)); ring.
  - intros pd' Hpa Hpd.
    destruct (Qlt_le_dec 0.2 t) as [H1|H1].
    + destruct (Qlt_le_dec t (0.2 + pd)) as [H2|H2].
      * rewrite !get_u_inside by lra. lra.
      * rewrite (get_u_outside t pa pd) by (intros [_ H]; lra).
        destruct (Qlt_le_dec t (0.2 + pd')) as [H3|H3].
        -- rewrite get_u_inside by lra. exact Hpa.
        -- rewrite get_u_outside by (intros [_ H]; lra). lra.
    + rewrite !get_u_outside by (intros [H _]; lra). lra.
Qed.

Lemma get_u_parameters_witness :
  get_u 0.3 1 0.05 <= get_u 0.3 1 0.2.
Proof.
  destruct (get_u_parameters 0.3 1 0.05) as [_ [_ H]].
  apply H; vm_compute; discriminate.
Defined.

(** ** The sampled excitation *)

Lemma run_u_map (odeint : (Q -> Q -> option Q) -> Q -> list Q -> list Q)
    (pd pa td : Q) :
  run_u (do_it odeint pd pa td) =
  map (fun i : nat => get_u (inject_Z (Z.of_nat i) * dt) pa pd)
    (seq 0 (length (time_grid td))).
Proof.
  cbn. rewrite time_grid_length. unfold time_grid, Py.arange.
  now rewrite !map_map.
Qed.

(** A grid point lies inside the pulse exactly when its index lies strictly
    between [2000] and [2000 + ceil(pulse_duration / dt)]. *)
Lemma grid_point_in_pulse (i : Z) (pd : Q) :
  (0.2 < inject_Z i * dt /\ inject_Z i * dt < 0.2 + pd) <->
  (2000 < i /\ i < 2000 + Qceiling (pd / dt))%Z.
Proof.
  pose proof (Qle_ceiling (pd / dt)) as Hle.
  pose proof (Qceiling_lt (pd / dt)) as Hlt.
  pose proof (grid_quotient pd) as Hq.
  rewrite inject_Z_pred in Hlt.
  set (x := pd / dt) in *. clearbody x. unfold dt in *.
  split; intros [H1 H2].
  - split.
    + rewrite Zlt_Qlt. change (inject_Z 2000) with 2000. lra.
    + rewrite Zlt_Qlt, inject_Z_plus. change (inject_Z 2000) with 2000. lra.
  - assert (H3 : (i <= 2000 + Qceiling x - 1)%Z) by lia.
    rewrite Zlt_Qlt in H1. change (inject_Z 2000) with 2000 in H1.
    rewrite Zle_Qle, inject_Z_pred, inject_Z_plus in H3.
    change (inject_Z 2000) with 2000 in H3.
    split; lra.
Qed.

Lemma sample_at (i : nat) (pa pd : Q) :
  get_u (inject_Z (Z.of_nat i) * dt) pa pd =
  if ((2000 <? Z.of_nat i) && (Z.of_nat i <? 2000 + Qceiling (pd / dt)))%Z
  then pa else 0.
Proof.
  destruct ((2000 <? Z.of_nat i) && (Z.of_nat i <? 2000 + Qceiling (pd / dt)))%Z
    eqn:E.
  - apply andb_true_iff in E. destruct E as [E1 E2].
    apply Z.ltb_lt in E1. apply Z.ltb_lt in E2.
    destruct (proj2 (grid_point_in_pulse (Z.of_nat i) pd) (conj E1 E2)).
    now apply get_u_inside.
  - apply get_u_outside. intros H.
    apply grid_point_in_pulse in H. destruct H as [H1 H2].
    apply Z.ltb_lt in H1. apply Z.ltb_lt in H2.
    rewrite H1, H2 in E. discriminate.
Qed.

Lemma excitation_at
    (odeint : (Q -> Q -> option Q) -> Q -> list Q -> list Q)
    (pd pa td : Q) (i : nat) :
  (i < length (time_grid td))%nat ->
  length (run_u (do_it odeint pd pa td)) = length (time_grid td) /\
  nth_error (run_u (do_it odeint pd pa td)) i =
    Some (if ((2000 <? Z.of_nat i) &&
              (Z.of_nat i <? 2000 + Qceiling (pd / dt)))%Z
          then pa else 0).
Proof.
  intros Hi. rewrite run_u_map, length_map, length_seq.
  split; [reflexivity|].
  rewrite nth_error_map.
  rewrite (nth_error_nth' _ 0%nat) by now rewrite length_seq.
  rewrite seq_nth by exact Hi. cbn [option_map Nat.add].
  now rewrite sample_at.
Qed.

(** The excitation that [do_it] samples for the plot, index by index.
    There are as many samples as grid points; every sample is [0] or the
    amplitude; the samples up to index [2000] are [0]; a sample after
    that, whose grid point is at least one step [dt] before the end
    [0.2 + pulse_duration] of the pulse, is the amplitude; and a sample
    whose grid point is at least one step after that end is [0].  The one
    grid point that the statement leaves open is the one at the right edge
    of the pulse, where rounding decides. *)
Theorem excitation_samples
    (odeint : (Q -> Q -> option Q) -> Q -> list Q -> list Q)
    (pd pa td : Q) (i : nat) :
  (i < length (time_grid td))%nat ->
  length (run_u (do_it odeint pd pa td)) = length (time_grid td) /\
  exists x, nth_error (run_u (do_it odeint pd pa td)) i = Some x /\
    (x = 0 \/ x = pa) /\
    ((Z.of_nat i <= 2000)%Z -> x = 0) /\
    ((2000 < Z.of_nat i)%Z ->
     (inject_Z (Z.of_nat i) + 1) * dt <= 0.2 + pd -> x = pa) /\
    (0.2 + pd + dt <= inject_Z (Z.of_nat i) * dt -> x = 0).
Proof.
  intros Hi. destruct (excitation_at odeint pd pa td i Hi) as [Hl Hx].
  split; [exact Hl|].
  rewrite <- sample_at in Hx.
  exists (get_u (inject_Z (Z.of_nat i) * dt) pa pd). split; [exact Hx|].
  split; [|split; [|split]].
  - unfold get_u. destruct (Py.ltb 0.2 (inject_Z (Z.of_nat i) * dt) &&
                            Py.ltb (inject_Z (Z.of_nat i) * dt) (0.2 + pd));
      [now right | now left].
  - intros H. apply get_u_outside. intros [H1 _].
    rewrite Zle_Qle in H. change (inject_Z 2000) with 2000 in H.
    unfold dt in H1. lra.
  - intros H1 H2. apply get_u_inside.
    + rewrite Zlt_Qlt in H1. change (inject_Z 2000) with 2000 in H1.
      unfold dt. lra.
    + unfold dt in *. lra.
  - intros H. apply get_u_outside. intros [_ H2]. unfold dt in *. lra.
Qed.

Lemma excitation_samples_witness :
  exists x, nth_error (run_u (do_it euler 0.0003 1 0.3)) 2002 = Some x /\
            (x = 0 \/ x = 1).
Proof.
  destruct (excitation_samples euler 0.0003 1 0.3 2002)
    as [_ [x [Hx [H _]]]].
  - rewrite time_grid_length. vm_compute. lia.
  - exists x. split; [exact Hx | exact H].
Defined.

(** Where rounding decides: for a pulse of [0.1] the grid point of index
    [3000] is [0.3], the real end of the pulse, and on doubles it is still
    inside, since [0.2 + 0.1] rounds up; the grid points [2000] and [2001]
    fall on either side of the start on doubles as they do in exact
    arithmetic. *)
Example right_edge_sample :
  B64.get_u (B64.grid_point 3000) (B64.of_Z 1) (B64.lit 1 10) = B64.of_Z 1 /\
  get_u (3000 * dt) 1 0.1 = 0 /\
  B64.get_u (B64.grid_point 3001) (B64.of_Z 1) (B64.lit 1 10) = B64.zero /\
  B64.get_u (B64.grid_point 2000) (B64.of_Z 1) (B64.lit 1 10) = B64.zero /\
  B64.get_u (B64.grid_point 2001) (B64.of_Z 1) (B64.lit 1 10) = B64.of_Z 1.
Proof. vm_compute. repeat split. Qed.

(** A pulse no longer than one step of the grid is not sampled at all: for
    [pulse_duration <= dt] every sample of the excitation is [0], whatever
    the amplitude. *)
Theorem short_pulse_unsampled
    (odeint : (Q -> Q -> option Q) -> Q -> list Q -> list Q)
    (pd pa td : Q) :
  pd <= dt ->
  Forall (fun x => x = 0) (run_u (do_it odeint pd pa td)).
Proof.
  intros Hpd. rewrite run_u_map. apply Forall_map, Forall_forall.
  intros i _. rewrite sample_at.
  assert (Hc : (Qceiling (pd / dt) <= 1)%Z).
  { rewrite <- (Qceiling_Z 1). apply Qceiling_resp_le.
    apply Qle_shift_div_r; [reflexivity|]. change (inject_Z 1) with 1. lra. }
  destruct (2000 <? Z.of_nat i)%Z eqn:E1; [|reflexivity].
  destruct (Z.of_nat i <? 2000 + Qceiling (pd / dt))%Z eqn:E2; [|reflexivity].
  apply Z.ltb_lt in E1. apply Z.ltb_lt in E2. lia.
Qed.

Lemma short_pulse_unsampled_witness :
  Forall (fun x => x = 0) (run_u (do_it euler 0.0001 1 0.3)).
Proof.
  apply (short_pulse_unsampled euler 0.0001 1 0.3).
  vm_compute; discriminate.
Defined.

(** ** The plotted window *)

Lemma settle_index_value : settle_index = 1000%Z.
Proof. reflexivity. Qed.

Lemma settle_skipn {A : Type} (arr : list A) : settle arr = skipn 1000 arr.
Proof. reflexivity. Qed.

Lemma time_grid_In (td x : Q) (j : nat) :
  nth_error (time_grid td) j = Some x -> x = inject_Z (Z.of_nat j) * dt.
Proof.
  intros H.
  assert (Hj : (j < length (time_grid td))%nat)
    by (apply nth_error_Some; congruence).
  rewrite (time_grid_nth_error td j Hj) in H. congruence.
Qed.

Lemma run_u_nth (odeint : (Q -> Q -> option Q) -> Q -> list Q -> list Q)
    (pd pa td x : Q) (j : nat) :
  nth_error (run_u (do_it odeint pd pa td)) j = Some x ->
  x = if ((2000 <? Z.of_nat j) &&
          (Z.of_nat j <? 2000 + Qceiling (pd / dt)))%Z
      then pa else 0.
Proof.
  intros H.
  assert (Hj : (j < length (time_grid td))%nat).
  { replace (length (time_grid td))
      with (length (run_u (do_it odeint pd pa td)))
      by (rewrite run_u_map; now rewrite length_map, length_seq).
    apply nth_error_Some. congruence. }
  rewrite run_u_map, nth_error_map, nth_error_seq in H.
  apply Nat.ltb_lt in Hj. rewrite Hj in H. cbn in H.
  rewrite sample_at in H. congruence.
Qed.

Lemma grid_longer_than (td : Q) (k : Z) :
  inject_Z k * dt < td -> (k < Qceiling (td / dt))%Z.
Proof.
  intros H. pose proof (Qle_ceiling (td / dt)) as Hle.
  pose proof (grid_quotient td) as Hq.
  rewrite Zlt_Qlt. set (x := td / dt) in *. clearbody x.
  unfold dt in *. lra.
Qed.

Lemma grid_no_longer_than (td : Q) (k : Z) :
  td <= inject_Z k * dt -> (Qceiling (td / dt) <= k)%Z.
Proof.
  intros H. rewrite <- (Qceiling_Z k). apply Qceiling_resp_le.
  apply Qle_shift_div_r; [reflexivity | exact H].
Qed.

(** The window that [do_it] plots, [arr[int(0.1/dt):]] of every array.  It
    drops the first [1000] grid points, so every plotted time is at least
    [0.1], and the first one is [0.1] when the run is longer than that; on a
    run no longer than [0.1] the window is empty, without an error.  Every
    excitation sample that the window drops is [0]: the plotted excitation
    has all the samples that carry the pulse. *)
Theorem plotted_window
    (odeint : (Q -> Q -> option Q) -> Q -> list Q -> list Q)
    (pd pa td : Q) :
  length (settle (time_grid td)) = (length (time_grid td) - 1000)%nat /\
  Forall (fun x => 0.1 <= x) (settle (time_grid td)) /\
  (0.1 < td ->
   exists x, hd_error (settle (time_grid td)) = Some x /\ x == 0.1) /\
  (td <= 0.1 -> settle (time_grid td) = []) /\
  Forall (fun x => x = 0) (firstn 1000 (run_u (do_it odeint pd pa td))) /\
  filter nonzero (settle (run_u (do_it odeint pd pa td))) =
  filter nonzero (run_u (do_it odeint pd pa td)).
Proof.
  assert (Hcut : Forall (fun x => x = 0)
                   (firstn 1000 (run_u (do_it odeint pd pa td)))).
  { apply Forall_forall. intros x Hx.
    apply In_nth_error in Hx. destruct Hx as [j Hj].
    rewrite nth_error_firstn in Hj.
    destruct (Nat.ltb j 1000) eqn:E; [|discriminate].
    apply Nat.ltb_lt in E. apply run_u_nth in Hj. rewrite Hj.
    replace (2000 <? Z.of_nat j)%Z with false; [reflexivity|].
    symmetry. apply Z.ltb_ge. lia. }
  rewrite !settle_skipn.
  split; [apply length_skipn|]. split; [|split; [|split; [|split]]].
  - apply Forall_forall. intros x Hx.
    apply In_nth_error in Hx. destruct Hx as [j Hj].
    rewrite nth_error_skipn in Hj. apply time_grid_In in Hj. rewrite Hj.
    assert (H : 1000 <= inject_Z (Z.of_nat (1000 + j))).
    { change 1000 with (inject_Z 1000). rewrite <- Zle_Qle. lia. }
    unfold dt. lra.
  - intros Htd. rewrite hd_error_skipn.
    assert (Hlen : (1000 < length (time_grid td))%nat).
    { rewrite time_grid_length.
      assert (1000 < Qceiling (td / dt))%Z
        by (apply grid_longer_than; change (inject_Z 1000) with 1000;
            unfold dt; lra).
      lia. }
    rewrite (time_grid_nth_error td 1000 Hlen).
    eexists; split; [reflexivity|]. reflexivity.
  - intros Htd. apply skipn_all2. rewrite time_grid_length.
    assert (Qceiling (td / dt) <= 1000)%Z
      by (apply grid_no_longer_than; change (inject_Z 1000) with 1000;
          unfold dt; lra).
    lia.
  - exact Hcut.
  - rewrite <- (firstn_skipn 1000 (run_u (do_it odeint pd pa td))) at 2.
    rewrite filter_app.
    replace (filter nonzero (firstn 1000 (run_u (do_it odeint pd pa td))))
      with (@nil Q); [reflexivity|].
    symmetry. induction Hcut as [|x l Hx _ IH]; [reflexivity|].
    cbn. now rewrite Hx, IH.
Qed.

Lemma plotted_window_witness :
  exists x, hd_error (settle (time_grid 0.1002)) = Some x /\ x == 0.1.
Proof.
  destruct (plotted_window euler 0.2 1 0.1002) as [_ [_ [H _]]].
  apply H. vm_compute. reflexivity.
Defined.

(** ** The sliders *)

(** For every position of the sliders the run has between [5000] and
    [20000] grid points, so it reaches the onset of the pulse; and when the
    pulse is longer than one step, the sample of index [2001] carries the
    amplitude and is inside the plotted window. *)
Theorem slider_runs
    (odeint : (Q -> Q -> option Q) -> Q -> list Q -> list Q)
    (pd pa td : Q) :
  in_slider total_duration_slider td ->
  in_slider pulse_duration_slider pd ->
  (5000 <= Z.of_nat (length (time_grid td)) <= 20000)%Z /\
  (dt < pd ->
   nth_error (run_u (do_it odeint pd pa td)) 2001 = Some pa /\
   nth_error (settle (run_u (do_it odeint pd pa td))) 1001 = Some pa).
Proof.
  unfold in_slider, total_duration_slider, pulse_duration_slider.
  cbn [slider_min slider_max]. intros [Ht0 Ht1] [Hp0 Hp1].
  assert (Hlo : (4999 < Qceiling (td / dt))%Z)
    by (apply grid_longer_than; change (inject_Z 4999) with 4999;
        unfold dt; lra).
  assert (Hhi : (Qceiling (td / dt) <= 20000)%Z)
    by (apply grid_no_longer_than; change (inject_Z 20000) with 20000;
        unfold dt; lra).
  split; [rewrite time_grid_length; lia|].
  intros Hpd.
  assert (Hc : (1 < Qceiling (pd / dt))%Z)
    by (apply grid_longer_than; change (inject_Z 1) with 1;
        unfold dt in *; lra).
  assert (Hi : (2001 < length (time_grid td))%nat)
    by (rewrite time_grid_length; lia).
  assert (E : nth_error (run_u (do_it odeint pd pa td)) 2001 = Some pa).
  { rewrite (proj2 (excitation_at odeint pd pa td 2001 Hi)).
    replace (Z.of_nat 2001 <? 2000 + Qceiling (pd / dt))%Z with true;
      [reflexivity|].
    symmetry. apply Z.ltb_lt. lia. }
  split; [exact E|].
  rewrite settle_skipn, nth_error_skipn. exact E.
Qed.

Lemma slider_runs_witness :
  (5000 <= Z.of_nat (length (time_grid 0.5)) <= 20000)%Z.
Proof.
  apply (slider_runs euler 0.2 1 0.5); split; vm_compute; discriminate.
Defined.

(** ** Array stores *)

Lemma setitem_some (arr : list Q) (i : nat) (x : Q) :
  (i < length arr)%nat -> exists arr', Np.setitem arr i x = Some arr'.
Proof.
  revert i. induction arr as [|y arr IH]; intros [|i] Hi; cbn in *;
    try lia.
  - eauto.
  - destruct (IH i) as [arr' E]; [lia|]. rewrite E. eauto.
Qed.

Lemma setitem_none (arr : list Q) (i : nat) (x : Q) :
  (length arr <= i)%nat -> Np.setitem arr i x = None.
Proof.
  revert i. induction arr as [|y arr IH]; intros [|i] Hi; cbn in *;
    try reflexivity; try lia.
  rewrite IH by lia. reflexivity.
Qed.

Lemma setitem_length (arr arr' : list Q) (i : nat) (x : Q) :
  Np.setitem arr i x = Some arr' -> length arr' = length arr.
Proof.
  revert i arr'. induction arr as [|y arr IH]; intros [|i] arr' H; cbn in *;
    try discriminate.
  - injection H as <-. reflexivity.
  - destruct (Np.setitem arr i x) as [r|] eqn:E; [|discriminate].
    injection H as <-. cbn. f_equal. now apply (IH i).
Qed.

Lemma setitem_nth_error (arr arr' : list Q) (i j : nat) (x : Q) :
  Np.setitem arr i x = Some arr' ->
  nth_error arr' j = if Nat.eqb j i then Some x else nth_error arr j.
Proof.
  revert i j arr'. induction arr as [|y arr IH]; intros [|i] j arr' H;
    cbn in *; try discriminate.
  - injection H as <-. now destruct j.
  - destruct (Np.setitem arr i x) as [r|] eqn:E; [|discriminate].
    injection H as <-. destruct j as [|j]; [reflexivity|].
    cbn. now apply IH.
Qed.

Lemma zeros_like_nth_error (t : list Q) (j : nat) :
  (j < length t)%nat -> nth_error (Np.zeros_like t) j = Some 0.
Proof.
  intros Hj. unfold Np.zeros_like. rewrite nth_error_map.
  destruct (nth_error t j) eqn:E; [reflexivity|].
  apply nth_error_None in E. lia.
Qed.

(** ** The muscle loop *)

Section MuscleLoop.

Variable M : Type.
Variable Muscle : Q -> M.
Variable step : M -> Q -> Q -> M * (Q * Q * Q * Q * Q).
Variable v_CE : M -> Q.

(** A loop that fits in the arrays runs to its end, keeps the shape of the
    arrays, steps the muscle once per sample, and leaves in [f_isom] a
    multiple of each sample at its index and the old contents elsewhere. *)
Lemma muscle_loop_runs (n : nat) (a : list Q) :
  forall muscle i tr,
    shaped n tr -> (i + length a <= n)%nat ->
    exists muscle' tr',
      muscle_loop M step v_CE muscle i a tr = Some (muscle', tr') /\
      shaped n tr' /\
      muscle' = fold_left (fun mu ai => fst (step mu ai dt)) a muscle /\
      (forall j, (j < i)%nat ->
         nth_error (f_isom tr') j = nth_error (f_isom tr) j) /\
      (forall j, (j < length a)%nat ->
         exists k, nth_error (f_isom tr') (i + j) = Some (k * nth j a 0)) /\
      (forall j, (i + length a <= j)%nat ->
         nth_error (f_isom tr') j = nth_error (f_isom tr) j).
Proof.
  induction a as [|ai rest IH]; intros muscle i tr Hs Hi.
  - exists muscle, tr. cbn [muscle_loop fold_left length].
    split; [reflexivity|]. split; [exact Hs|]. split; [reflexivity|].
    split; [intros; reflexivity|].
    split; [intros j Hj; lia | intros; reflexivity].
  - cbn [muscle_loop length] in *.
    destruct Hs as [S1 [S2 [S3 [S4 [S5 S6]]]]].
    destruct (step muscle ai dt) as [mu [[[[fm fc] fi] fs] ls]] eqn:Est.
    destruct (setitem_some (f_mtc tr) i fm) as [a1 E1]; [lia|].
    destruct (setitem_some (f_ce tr) i fc) as [a2 E2]; [lia|].
    destruct (setitem_some (f_see tr) i fs) as [a3 E3]; [lia|].
    destruct (setitem_some (l_see tr) i ls) as [a4 E4]; [lia|].
    destruct (setitem_some (f_isom tr) i (fi * ai)) as [a5 E5]; [lia|].
    destruct (setitem_some (v_ce tr) i (v_CE mu)) as [a6 E6]; [lia|].
    rewrite E1, E2, E3, E4, E5, E6. cbn [Py.bind].
    destruct (IH mu (S i) (MkTraces a6 a1 a2 a5 a3 a4))
      as [mu' [tr' [Hrun [Hs' [Hm [Hlow [Hmid Hhigh]]]]]]].
    { unfold shaped; cbn.
      rewrite (setitem_length _ _ _ _ E1), (setitem_length _ _ _ _ E2),
        (setitem_length _ _ _ _ E3), (setitem_length _ _ _ _ E4),
        (setitem_length _ _ _ _ E5), (setitem_length _ _ _ _ E6).
      repeat split; assumption. }
    { lia. }
    exists mu', tr'. split; [exact Hrun|]. split; [exact Hs'|].
    cbn [f_isom] in Hlow, Hhigh.
    split; [|split; [|split]].
    + cbn [fold_left]. rewrite Est. exact Hm.
    + intros j Hj. rewrite Hlow by lia.
      rewrite (setitem_nth_error _ _ _ j _ E5).
      replace (Nat.eqb j i) with false; [reflexivity|].
      symmetry. apply Nat.eqb_neq. lia.
    + intros [|j] Hj.
      * exists fi. rewrite Nat.add_0_r, Hlow by lia.
        rewrite (setitem_nth_error _ _ _ i _ E5), Nat.eqb_refl.
        reflexivity.
      * destruct (Hmid j) as [k Hk]; [lia|]. exists k.
        replace (i + S j)%nat with (S i + j)%nat by lia. exact Hk.
    + intros j Hj. rewrite Hhigh by lia.
      rewrite (setitem_nth_error _ _ _ j _ E5).
      replace (Nat.eqb j i) with false; [reflexivity|].
      symmetry. apply Nat.eqb_neq. lia.
Qed.

(** A loop that does not fit raises at the first index past the arrays. *)
Lemma muscle_loop_overflow (n : nat) (a : list Q) :
  forall muscle i tr,
    shaped n tr -> (i <= n)%nat -> (n < i + length a)%nat ->
    muscle_loop M step v_CE muscle i a tr = None.
Proof.
  induction a as [|ai rest IH]; intros muscle i tr Hs Hi Hn.
  - cbn in Hn. lia.
  - cbn [muscle_loop length] in *.
    destruct Hs as [S1 [S2 [S3 [S4 [S5 S6]]]]].
    destruct (step muscle ai dt) as [mu [[[[fm fc] fi] fs] ls]] eqn:Est.
    destruct (Nat.eq_dec i n) as [->|Hne].
    + rewrite (setitem_none (f_mtc tr) n fm) by lia. reflexivity.
    + destruct (setitem_some (f_mtc tr) i fm) as [a1 E1]; [lia|].
      destruct (setitem_some (f_ce tr) i fc) as [a2 E2]; [lia|].
      destruct (setitem_some (f_see tr) i fs) as [a3 E3]; [lia|].
      destruct (setitem_some (l_see tr) i ls) as [a4 E4]; [lia|].
      destruct (setitem_some (f_isom tr) i (fi * ai)) as [a5 E5]; [lia|].
      destruct (setitem_some (v_ce tr) i (v_CE mu)) as [a6 E6]; [lia|].
      rewrite E1, E2, E3, E4, E5, E6. cbn [Py.bind].
      apply IH; [|lia|lia].
      unfold shaped; cbn.
      rewrite (setitem_length _ _ _ _ E1), (setitem_length _ _ _ _ E2),
        (setitem_length _ _ _ _ E3), (setitem_length _ _ _ _ E4),
        (setitem_length _ _ _ _ E5), (setitem_length _ _ _ _ E6).
      repeat split; assumption.
Qed.

Lemma zeros_shaped (t : list Q) :
  shaped (length t)
    (MkTraces (Np.zeros_like t) (Np.zeros_like t) (Np.zeros_like t)
       (Np.zeros_like t) (Np.zeros_like t) (Np.zeros_like t)).
Proof.
  unfold shaped, Np.zeros_like; cbn. rewrite length_map.
  repeat split; reflexivity.
Qed.

End MuscleLoop.

Lemma muscle_traces_fails
    (M : Type) (Muscle : Q -> M)
    (step : M -> Q -> Q -> M * (Q * Q * Q * Q * Q)) (v_CE : M -> Q)
    (t a : list Q) :
  muscle_traces M Muscle step v_CE t a = None <->
  a = [] \/ (length t < length a)%nat.
Proof.
  unfold muscle_traces. destruct a as [|a_first rest].
  - cbn. split; [now left | reflexivity].
  - cbn [nth_error Py.bind].
    destruct (Nat.lt_ge_cases (length t) (length (a_first :: rest)))
      as [Hlong|Hfit].
    + rewrite (muscle_loop_overflow M step v_CE (length t) (a_first :: rest))
        by (try apply zeros_shaped; lia).
      split; [now right | reflexivity].
    + destruct (muscle_loop_runs M step v_CE (length t) (a_first :: rest)
                  (Muscle a_first) 0 _ (zeros_shaped t))
        as [m' [tr' [Hrun _]]]; [cbn in *; lia|].
      rewrite Hrun. split; [discriminate|].
      intros [H|H]; [discriminate | lia].
Qed.

Lemma muscle_traces_shape
    (M : Type) (Muscle : Q -> M)
    (step : M -> Q -> Q -> M * (Q * Q * Q * Q * Q)) (v_CE : M -> Q)
    (t a : list Q) (m : M) (tr : traces) :
  muscle_traces M Muscle step v_CE t a = Some (m, tr) ->
  shaped (length t) tr /\
  m = fold_left (fun mu ai => fst (step mu ai dt)) a (Muscle (nth 0 a 0)).
Proof.
  intros E.
  assert (Hfit : a <> [] /\ (length a <= length t)%nat).
  { destruct (muscle_traces_fails M Muscle step v_CE t a) as [_ Hn].
    split.
    - intros H. rewrite Hn in E by (now left). discriminate.
    - destruct (Nat.lt_ge_cases (length t) (length a)) as [H|H]; [|exact H].
      rewrite Hn in E by (now right). discriminate. }
  destruct Hfit as [Hne Hfit].
  unfold muscle_traces in E. destruct a as [|a_first rest]; [congruence|].
  cbn [nth_error Py.bind nth] in *.
  destruct (muscle_loop_runs M step v_CE (length t) (a_first :: rest)
              (Muscle a_first) 0 _ (zeros_shaped t))
    as [m' [tr' [Hrun [Hs [Hm _]]]]]; [cbn in *; lia|].
  rewrite Hrun in E. injection E as <- <-. split; [exact Hs | exact Hm].
Qed.

Lemma f_isom_entries
    (M : Type) (Muscle : Q -> M)
    (step : M -> Q -> Q -> M * (Q * Q * Q * Q * Q)) (v_CE : M -> Q)
    (t a : list Q) (m : M) (tr : traces) :
  muscle_traces M Muscle step v_CE t a = Some (m, tr) ->
  (length a <= length t)%nat /\
  (forall j, (j < length a)%nat ->
     exists k, nth_error (f_isom tr) j = Some (k * nth j a 0)) /\
  (forall j, (length a <= j < length t)%nat ->
     nth_error (f_isom tr) j = Some 0).
Proof.
  intros E.
  assert (Hfit : (length a <= length t)%nat).
  { destruct (Nat.lt_ge_cases (length t) (length a)) as [H|H]; [|exact H].
    destruct (muscle_traces_fails M Muscle step v_CE t a) as [_ Hn];
      rewrite Hn in E by (now right); discriminate. }
  split; [exact Hfit|].
  unfold muscle_traces in E. destruct a as [|a_first rest]; [discriminate|].
  cbn [nth_error Py.bind] in E.
  destruct (muscle_loop_runs M step v_CE (length t) (a_first :: rest)
              (Muscle a_first) 0 _ (zeros_shaped t))
    as [m' [tr' [Hrun [_ [_ [_ [Hmid Hhigh]]]]]]]; [cbn in *; lia|].
  rewrite Hrun in E. injection E as <- <-. split.
  - intros j Hj. exact (Hmid j Hj).
  - intros j [Hj1 Hj2]. rewrite Hhigh by (cbn in *; lia).
    cbn [f_isom]. now apply zeros_like_nth_error.
Qed.

(** The loop of [do_it] raises in exactly two cases: [a] is empty (the
    [IndexError] of [a[0]]), or [a] has more samples than the arrays shaped
    like [t] have places.  Otherwise it returns six arrays as long as [t],
    and the muscle has been built from [a[0]] and stepped once per sample
    of [a], in order, [a[0]] included. *)
Theorem muscle_traces_runs
    (M : Type) (Muscle : Q -> M)
    (step : M -> Q -> Q -> M * (Q * Q * Q * Q * Q)) (v_CE : M -> Q)
    (t a : list Q) :
  (muscle_traces M Muscle step v_CE t a = None <->
   a = [] \/ (length t < length a)%nat) /\
  (forall m tr,
     muscle_traces M Muscle step v_CE t a = Some (m, tr) ->
     shaped (length t) tr /\
     m = fold_left (fun mu ai => fst (step mu ai dt)) a (Muscle (nth 0 a 0))).
Proof.
  split; [apply muscle_traces_fails|].
  intros m tr E. now apply (muscle_traces_shape M Muscle step v_CE t a).
Qed.

Lemma muscle_traces_runs_witness :
  exists m tr,
    muscle_traces Q (fun x => x) stub_step (fun m => m) [0; 0; 0] [0.1; 0.2]
      = Some (m, tr) /\
    shaped 3 tr /\ m = 0.2.
Proof.
  destruct (muscle_traces_runs Q (fun x => x) stub_step (fun m => m)
              [0; 0; 0] [0.1; 0.2]) as [_ H].
  eexists; eexists. split; [reflexivity|].
  apply H. reflexivity.
Defined.

(** In the filled arrays the isometric force [f_isom[j]] is a multiple of
    the activation [a[j]], for every sample, and keeps its initial [0]
    past the samples: where the activation is zero, so is [f_isom]. *)
Theorem f_isom_scaled
    (M : Type) (Muscle : Q -> M)
    (step : M -> Q -> Q -> M * (Q * Q * Q * Q * Q)) (v_CE : M -> Q)
    (t a : list Q) (m : M) (tr : traces) :
  muscle_traces M Muscle step v_CE t a = Some (m, tr) ->
  (length a <= length t)%nat /\
  (forall j, (j < length a)%nat ->
     exists k, nth_error (f_isom tr) j = Some (k * nth j a 0)) /\
  (forall j, (length a <= j < length t)%nat ->
     nth_error (f_isom tr) j = Some 0).
Proof. apply f_isom_entries. Qed.

Lemma f_isom_scaled_witness :
  exists k, nth_error [1 * 0.1; 1 * 0.2; 0] 1 = Some (k * nth 1 [0.1; 0.2] 0).
Proof.
  destruct (f_isom_scaled Q (fun x => x) stub_step (fun m => m)
              [0; 0; 0] [0.1; 0.2] 0.2
              (MkTraces [0.1; 0.2; 0] [0.1; 0.2; 0] [0.1; 0.2; 0]
                 [1 * 0.1; 1 * 0.2; 0] [0.1; 0.2; 0] [0.1; 0.2; 0]))
    as [_ [H _]]; [reflexivity|].
  apply (H 1%nat). cbn. lia.
Defined.

(** ** The whole of [do_it] *)

Lemma time_grid_empty (td : Q) : td <= 0 -> time_grid td = [].
Proof.
  intros Htd. apply length_zero_iff_nil. rewrite time_grid_length.
  assert (Qceiling (td / dt) <= 0)%Z
    by (apply grid_no_longer_than; change (inject_Z 0) with 0; lra).
  lia.
Qed.

Lemma time_grid_nonempty (td : Q) :
  0 < td -> (0 < length (time_grid td))%nat.
Proof.
  intros Htd. rewrite time_grid_length.
  assert (0 < Qceiling (td / dt))%Z
    by (apply grid_longer_than; change (inject_Z 0) with 0; lra).
  lia.
Qed.

(** [do_it] with an integrator that returns one sample per time point: for
    [total_duration <= 0] the grid is empty and [do_it] raises at [a[0]];
    for a positive [total_duration] the loop runs to its end and fills
    arrays as long as the grid. *)
Theorem do_it_traces_runs
    (M : Type) (Muscle : Q -> M)
    (step : M -> Q -> Q -> M * (Q * Q * Q * Q * Q)) (v_CE : M -> Q)
    (odeint : (Q -> Q -> option Q) -> Q -> list Q -> list Q)
    (pd pa td : Q) :
  (forall f y0 ts, length (odeint f y0 ts) = length ts) ->
  (td <= 0 -> do_it_traces M Muscle step v_CE odeint pd pa td = None) /\
  (0 < td ->
   exists m tr,
     do_it_traces M Muscle step v_CE odeint pd pa td = Some (m, tr) /\
     shaped (length (time_grid td)) tr).
Proof.
  intros Hlen. unfold do_it_traces. cbn [do_it run_t run_a]. split.
  - intros Htd. apply muscle_traces_fails. left.
    apply length_zero_iff_nil. rewrite Hlen, (time_grid_empty td Htd).
    reflexivity.
  - intros Htd. pose proof (time_grid_nonempty td Htd) as Hpos.
    destruct (muscle_traces M Muscle step v_CE (time_grid td)
                (odeint (fun y x => dydt y x pa pd) a0 (time_grid td)))
      as [[m tr]|] eqn:E.
    + exists m, tr. split; [reflexivity|].
      now apply (muscle_traces_shape M Muscle step v_CE _ _ m tr E).
    + apply muscle_traces_fails in E. rewrite Hlen in E.
      destruct E as [E|E]; [|lia].
      apply (f_equal (@length Q)) in E. rewrite Hlen in E. cbn in E. lia.
Qed.

Lemma do_it_traces_runs_witness :
  do_it_traces Q (fun x => x) stub_step (fun m => m) euler 0.2 1 0 = None.
Proof.
  destruct (do_it_traces_runs Q (fun x => x) stub_step (fun m => m)
              euler 0.2 1 0 euler_length) as [H _].
  apply H. vm_compute. discriminate.
Defined.

(** With [pulse_amplitude = 0] and an integrator that keeps a rest point,
    the isometric force that [do_it] plots is zero at every grid point,
    whatever the muscle model returns. *)
Theorem zero_pulse_f_isom
    (M : Type) (Muscle : Q -> M)
    (step : M -> Q -> Q -> M * (Q * Q * Q * Q * Q)) (v_CE : M -> Q)
    (odeint : (Q -> Q -> option Q) -> Q -> list Q -> list Q)
    (pd td : Q) (m : M) (tr : traces) :
  keeps_rest odeint ->
  do_it_traces M Muscle step v_CE odeint pd 0 td = Some (m, tr) ->
  length (f_isom tr) = length (time_grid td) /\
  Forall (fun x => x == 0) (f_isom tr).
Proof.
  intros Hk E. unfold do_it_traces in E. cbn [do_it run_t run_a] in E.
  set (a := odeint (fun y x => dydt y x 0 pd) a0 (time_grid td)) in *.
  assert (Ha : Forall (fun y => y == 0) a).
  { apply Hk. intros y x Hy. now apply dydt_rest. }
  destruct (muscle_traces_shape M Muscle step v_CE _ _ m tr E)
    as [[_ [_ [_ [Hl _]]]] _].
  destruct (f_isom_entries M Muscle step v_CE _ _ m tr E)
    as [Hfit [Hmid Hhigh]].
  split; [exact Hl|].
  apply Forall_forall. intros x Hx.
  apply In_nth_error in Hx. destruct Hx as [j Hj].
  assert (Hjl : (j < length (time_grid td))%nat)
    by (rewrite <- Hl; apply nth_error_Some; congruence).
  destruct (Nat.lt_ge_cases j (length a)) as [Hlt|Hge].
  - destruct (Hmid j Hlt) as [k Hk']. rewrite Hk' in Hj.
    injection Hj as <-.
    assert (H0 : nth j a 0 == 0).
    { rewrite Forall_forall in Ha. apply Ha. now apply nth_In. }
    rewrite H0. ring.
  - rewrite Hhigh in Hj by lia. injection Hj as <-. reflexivity.
Qed.

Lemma zero_pulse_f_isom_witness :
  exists m tr,
    do_it_traces Q (fun x => x) stub_step (fun m => m) euler 0.2 0 0.0003
      = Some (m, tr) /\
    Forall (fun x => x == 0) (f_isom tr).
Proof.
  destruct (do_it_traces Q (fun x => x) stub_step (fun m => m)
              euler 0.2 0 0.0003) as [[m tr]|] eqn:E;
    [|vm_compute in E; discriminate].
  exists m, tr. split; [reflexivity|].
  apply (zero_pulse_f_isom Q (fun x => x) stub_step (fun m => m)
           euler 0.2 0.0003 m tr euler_keeps_rest E).
Defined.
